(** * cff-chat-bot: the crawler (crawler/crawler.py) and the question
      service (main.py), embedded and checked against their specification.

    Python [str] values are sequences of Unicode code points; they are
    modelled as [list N].  Library operations whose behaviour is fixed by
    the language ([str.strip], [str.splitlines], [in], [str.join], ...) are
    written out; library operations that depend on large external tables or
    on the network ([str.lower], [urlparse], [requests], BeautifulSoup, md5)
    are members of the interfaces [Unicode] and [Web], and every general
    theorem holds for all their implementations. *)

From Stdlib Require Import ZArith NArith List Ascii String Lia Bool.
From stdpp Require Import base tactics option list gmap pretty sorting.

Local Open Scope N_scope.

(** ** Python strings *)

Module PyStr.

Abbreviation str := (list N).

(** Source literals are written as UTF-8 text and decoded to code points. *)
Fixpoint utf8_decode (bs : list N) : str :=
  match bs with
  | [] => []
  | b0 :: r0 =>
    if b0 <? 128 then b0 :: utf8_decode r0
    else match r0 with
    | [] => []
    | b1 :: r1 =>
      if b0 <? 224 then ((b0 - 192) * 64 + (b1 - 128)) :: utf8_decode r1
      else match r1 with
      | [] => []
      | b2 :: r2 =>
        if b0 <? 240
        then (((b0 - 224) * 64 + (b1 - 128)) * 64 + (b2 - 128)) :: utf8_decode r2
        else match r2 with
        | [] => []
        | b3 :: r3 =>
          ((((b0 - 240) * 64 + (b1 - 128)) * 64 + (b2 - 128)) * 64 + (b3 - 128))
            :: utf8_decode r3
        end
      end
    end
  end.

Definition py (s : string) : str :=
  utf8_decode (map N_of_ascii (list_ascii_of_string s)).

Definition LF : N := 10.
Definition CR : N := 13.

(** [str.isspace] on one code point (CPython's [_PyUnicode_IsWhitespace]). *)
Definition isspace (c : N) : bool :=
  ((9 <=? c) && (c <=? 13)) || ((28 <=? c) && (c <=? 32))
  || (c =? 133) || (c =? 160) || (c =? 5760)
  || ((8192 <=? c) && (c <=? 8202))
  || (c =? 8232) || (c =? 8233) || (c =? 8239) || (c =? 8287) || (c =? 12288).

(** Line boundaries of [str.splitlines] (CPython's [_PyUnicode_IsLinebreak]). *)
Definition is_linebreak (c : N) : bool :=
  ((10 <=? c) && (c <=? 13)) || ((28 <=? c) && (c <=? 30))
  || (c =? 133) || (c =? 8232) || (c =? 8233).

Fixpoint lstrip (s : str) : str :=
  match s with
  | [] => []
  | c :: rest => if isspace c then lstrip rest else s
  end.

Fixpoint rstrip (s : str) : str :=
  match s with
  | [] => []
  | c :: rest =>
    match rstrip rest with
    | [] => if isspace c then [] else [c]
    | r => c :: r
    end
  end.

(** [s.strip()]: leading whitespace is skipped, then trailing whitespace. *)
Definition strip (s : str) : str := rstrip (lstrip s).

Definition starts_with_LF (s : str) : bool :=
  match s with
  | c :: _ => c =? LF
  | [] => false
  end.

Definition prepend (c : N) (ls : list str) : list str :=
  match ls with
  | [] => [[c]]
  | l :: ls' => (c :: l) :: ls'
  end.

(** [s.splitlines()]: the text is cut at every line boundary, the pair
    CR LF counts as one boundary, and no empty line is produced after a
    final boundary. *)
Fixpoint splitlines (s : str) : list str :=
  match s with
  | [] => []
  | c :: rest =>
    if (c =? CR) && starts_with_LF rest then splitlines rest
    else if is_linebreak c then [] :: splitlines rest
    else prepend c (splitlines rest)
  end.

Definition str_eqb (a b : str) : bool := bool_decide (a = b).

Fixpoint startswith (s pre : str) : bool :=
  match pre, s with
  | [], _ => true
  | p :: pre', c :: s' => (c =? p) && startswith s' pre'
  | _ :: _, [] => false
  end.

(** [sub in s] *)
Fixpoint contains (sub s : str) : bool :=
  startswith s sub ||
  match s with
  | [] => false
  | _ :: s' => contains sub s'
  end.

(** [s.endswith(suf)] *)
Definition endswith (s suf : str) : bool :=
  (length suf <=? length s)%nat
  && str_eqb (drop (length s - length suf) s) suf.

(** [sep.join(l)] *)
Fixpoint join (sep : str) (l : list str) : str :=
  match l with
  | [] => []
  | x :: xs =>
    match xs with
    | [] => x
    | _ :: _ => x ++ sep ++ join sep xs
    end
  end.

Definition nonempty_list {A} (l : list A) : bool :=
  match l with [] => false | _ :: _ => true end.

Definition nonempty (s : str) : bool :=
  match s with [] => false | _ :: _ => true end.

End PyStr.

Import PyStr.

(** [str.lower] depends on the Unicode case tables. *)
Class Unicode := { lower : str -> str }.

(** On ASCII text [str.lower] maps A-Z to a-z and nothing else. *)
Definition lower_ascii_char (c : N) : N :=
  if (65 <=? c) && (c <=? 90) then c + 32 else c.

Definition lower_ascii : Unicode := {| lower := map lower_ascii_char |}.

Local Open Scope Z_scope.

(** ** crawler/crawler.py *)

Module Crawler.

(** *** 1. Configuration *)

Record Config := {
  START_URLS : list str;
  ALLOWED_DOMAIN : str;
  MAX_PAGES : Z;
  MAX_DEPTH : Z
}.

(** The constants of the module as they stand in the source. *)
Definition source_config : Config := {|
  START_URLS := [py "https://ogya-h.gne.go.kr/ogya-h/main.do"];
  ALLOWED_DOMAIN := py "ogya-h.gne.go.kr";
  MAX_PAGES := 100;
  MAX_DEPTH := 3
|}.

(** *** Library interface *)

(** The fields of [urlparse(url)] the crawler reads. *)
Record ParseResult := {
  scheme : str;
  netloc : str;
  path : str
}.

(** A [requests] response: [status_code] and the decoded [text]. *)
Record Response := {
  status_code : Z;
  res_text : str
}.

(** [World] is the state of the network.  [urlparse] and [urljoin] give
    [None] where the library raises [ValueError]; [requests_get] gives
    [None] where the request raises.  The three [soup_*] members are the
    BeautifulSoup queries of [extract_main_text] and [extract_links]. *)
Class Web (World : Type) := {
  urlparse : str -> option ParseResult;
  urljoin : str -> str -> option str;
  requests_get : World -> str -> World * option Response;
  soup_title : str -> str;
  soup_main_text : str -> str;
  soup_hrefs : str -> list str;
  md5_hexdigest : str -> str
}.

(** What the crawler prints, one constructor per message. *)
Inductive event :=
| SEED (url : str)
| FETCH (url : str)
| HTTP_skip (status : Z)
| FETCH_ERROR
| SKIP_not_allowed (url : str)
| SKIP_empty_text (url : str)
| SAVE (url : str) (depth pages : Z)
| DONE (pages : Z).

Record PageRecord := {
  url : str;
  title : str;
  depth : Z;
  text : str;
  hash : str
}.

Section WithLibrary.
Context {U : Unicode} {World : Type} {W : Web World} (cfg : Config).

(** *** 2. Utilities *)

Definition blocked_ext : list str :=
  [ py ".pdf"; py ".hwp"; py ".hwpx"; py ".xls"; py ".xlsx";
    py ".doc"; py ".docx"; py ".ppt"; py ".pptx";
    py ".jpg"; py ".jpeg"; py ".png"; py ".gif"; py ".zip" ].

Definition is_allowed_url (url : str) : bool :=
  match urlparse url with
  | None => false
  | Some parsed =>
    if negb (str_eqb (scheme parsed) (py "http")
             || str_eqb (scheme parsed) (py "https")) then false
    else if negb (contains (ALLOWED_DOMAIN cfg) (netloc parsed)) then false
    else
      let path_lower := lower (path parsed) in
      if existsb (fun ext => endswith path_lower ext) blocked_ext then false
      else true
  end.

Definition fetch_html (w : World) (log : list event) (url : str)
  : World * list event * option str :=
  let log := log ++ [FETCH url] in
  match requests_get w url with
  | (w', None) => (w', log ++ [FETCH_ERROR], None)
  | (w', Some res) =>
    if negb (status_code res =? 200)
    then (w', log ++ [HTTP_skip (status_code res)], None)
    else (w', log, Some (res_text res))
  end.

(** The tests of the loop body that drop a line whatever came before it. *)
Definition is_noise (ln : str) : bool :=
  negb (nonempty ln)
  || (length ln <=? 2)%nat
  || (let lower := lower ln in
      contains (py "copyright") lower
      || (contains (py "경상남도") ln && contains (py "교육청") ln)
      || (contains (py "전화") ln && contains (py "-") ln)
      || (contains (py "팩스") ln && contains (py "-") ln)
      || (contains (py "무단 전재") ln || contains (py "재배포 금지") ln)
      || (contains (py "홈 >") ln || contains (py "home >") lower)).

(** One turn of the [for ln in lines] loop. *)
Definition clean_step (cleaned_lines : list str) (ln : str) : list str :=
  if is_noise ln then cleaned_lines
  else if nonempty_list cleaned_lines && str_eqb (List.last cleaned_lines []) ln
  then cleaned_lines
  else cleaned_lines ++ [ln].

Definition clean_lines (text : str) : str :=
  let lines := map strip (splitlines text) in
  let cleaned_lines := fold_left clean_step lines [] in
  match cleaned_lines with
  | [] => strip text
  | _ :: _ => join [LF] cleaned_lines
  end.

Definition extract_main_text (url html : str) : str * str :=
  let title := soup_title html in
  let text := soup_main_text html in
  let cleaned := clean_lines text in
  (title, cleaned).

(** One turn of the [for a in ...] loop of [extract_links]; [None] when
    [urljoin] raises, which the function does not catch. *)
Definition link_step (base_url : str) (links : list str) (a_href : str)
  : option (list str) :=
  let href := strip a_href in
  if negb (nonempty href) || startswith href (py "#")
     || startswith (lower href) (py "javascript:")
  then Some links
  else
    match urljoin base_url href with
    | None => None
    | Some abs_url =>
      if is_allowed_url abs_url then Some (links ++ [abs_url])
      else Some links
    end.

(** [extract_links]: the links, or [None] when the exception of [urljoin]
    leaves the function. *)
Definition extract_links (base_url html : str) : option (list str) :=
  fold_left
    (fun acc a_href =>
       match acc with
       | None => None
       | Some links => link_step base_url links a_href
       end)
    (soup_hrefs html) (Some []).

Definition text_hash (text : str) : str := md5_hexdigest text.

(** *** 3. The crawl loop *)

Record State := {
  visited : gset str;
  queue : list (str * Z);
  page_count : Z;
  out : list PageRecord;
  log : list event;
  world : World;
  raised : bool
}.

Definition init_state (w : World) : State := {|
  visited := ∅;
  queue := map (fun url => (url, 0)) (START_URLS cfg);
  page_count := 0;
  out := [];
  log := map SEED (START_URLS cfg);
  world := w;
  raised := false
|}.

(** The body of the [while] loop, for the task [(url, depth)] taken from the
    left of the queue; [queue'] is the rest of the queue.  The pause
    [time.sleep(REQUEST_DELAY)] that ends a saving turn changes no state.
    When [extract_links] raises, after the record is written and counted,
    the exception leaves [crawl]: the state is marked [raised]. *)
Definition loop_body (st : State) (url : str) (depth : Z)
                     (queue' : list (str * Z)) : State :=
  if bool_decide (url ∈ visited st) then
    {| visited := visited st; queue := queue'; page_count := page_count st;
       out := out st; log := log st; world := world st;
       raised := raised st |}
  else
    let visited' := {[url]} ∪ visited st in
    if depth >? MAX_DEPTH cfg then
      {| visited := visited'; queue := queue'; page_count := page_count st;
         out := out st; log := log st; world := world st;
         raised := raised st |}
    else if negb (is_allowed_url url) then
      {| visited := visited'; queue := queue'; page_count := page_count st;
         out := out st; log := log st ++ [SKIP_not_allowed url];
         world := world st; raised := raised st |}
    else
      match fetch_html (world st) (log st) url with
      | (w', log', None) =>
        {| visited := visited'; queue := queue'; page_count := page_count st;
           out := out st; log := log'; world := w'; raised := raised st |}
      | (w', log', Some html) =>
        let '(title, text) := extract_main_text url html in
        if negb (nonempty text) then
          {| visited := visited'; queue := queue';
             page_count := page_count st; out := out st;
             log := log' ++ [SKIP_empty_text url]; world := w';
             raised := raised st |}
        else
          let page_hash := text_hash text in
          let record := {| url := url; title := title; depth := depth;
                           text := text; hash := page_hash |} in
          let page_count' := page_count st + 1 in
          match extract_links url html with
          | None =>
            {| visited := visited'; queue := queue';
               page_count := page_count';
               out := out st ++ [record];
               log := log' ++ [SAVE url depth page_count'];
               world := w'; raised := true |}
          | Some links =>
            {| visited := visited';
               queue := fold_left
                          (fun q link =>
                             if bool_decide (link ∈ visited') then q
                             else q ++ [(link, depth + 1)])
                          links queue';
               page_count := page_count';
               out := out st ++ [record];
               log := log' ++ [SAVE url depth page_count'];
               world := w'; raised := raised st |}
          end
      end.

(** One turn of [while queue and page_count < MAX_PAGES]; [None] when the
    loop has been left: the guard fails, or an exception was raised. *)
Definition loop_step (st : State) : option State :=
  if raised st then None
  else
    match queue st with
    | [] => None
    | (url, depth) :: queue' =>
      if page_count st <? MAX_PAGES cfg
      then Some (loop_body st url depth queue')
      else None
    end.

(** The state after at most [n] turns of the loop. *)
Fixpoint run (n : nat) (st : State) : State :=
  match n with
  | O => st
  | S n' =>
    match loop_step st with
    | None => st
    | Some st' => run n' st'
    end
  end.

(** [crawl()] returning: the state in which it returns, when the guard of
    the loop fails within [fuel] turns and the final message is printed.
    It is [None] as long as [crawl] has not returned: the loop needs more
    turns, or an exception has left it. *)
Definition crawl (fuel : nat) (w : World) : option State :=
  let st := run fuel (init_state w) in
  match loop_step st with
  | Some _ => None
  | None =>
    if raised st then None
    else
      Some {| visited := visited st; queue := queue st;
              page_count := page_count st; out := out st;
              log := log st ++ [DONE (page_count st)]; world := world st;
              raised := false |}
  end.

(** [crawl()] raising: the state in which the exception leaves it, within
    [fuel] turns. *)
Definition crawl_raises (fuel : nat) (w : World) : option State :=
  let st := run fuel (init_state w) in
  if raised st then Some st else None.

End WithLibrary.

Arguments State : clear implicits.

End Crawler.

(** ** main.py *)

Module Main.

(** *** The two regular expressions of [answer_from_staff_db]

    Both patterns are sequences of one-character atoms, a greedy [\s*] and
    an optional character; [match_here] is the backtracking matcher of [re]
    on such sequences and returns the captured groups. *)

Inductive atom :=
| Range (lo hi : N)
| Lit (c : N)
| AnyOf (cs : list N)
| Space.

Definition atom_matches (a : atom) (c : N) : bool :=
  match a with
  | Range lo hi => ((lo <=? c) && (c <=? hi))%N
  | Lit c' => (c =? c')%N
  | AnyOf cs => existsb (N.eqb c) cs
  | Space => isspace c
  end.

Inductive item :=
| Group (a : atom)
| One (a : atom)
| Star (a : atom)
| Opt (a : atom).

Fixpoint match_here (items : list item) (s : str) {struct items}
  : option (list N) :=
  match items with
  | [] => Some []
  | Group a :: items' =>
    match s with
    | c :: s' =>
      if atom_matches a c then option_map (cons c) (match_here items' s')
      else None
    | [] => None
    end
  | One a :: items' =>
    match s with
    | c :: s' => if atom_matches a c then match_here items' s' else None
    | [] => None
    end
  | Star a :: items' =>
    (fix star (s : str) : option (list N) :=
       match s with
       | c :: s' =>
         if atom_matches a c then
           match star s' with
           | Some g => Some g
           | None => match_here items' s
           end
         else match_here items' s
       | [] => match_here items' []
       end) s
  | Opt a :: items' =>
    match s with
    | c :: s' =>
      if atom_matches a c then
        match match_here items' s' with
        | Some g => Some g
        | None => match_here items' s
        end
      else match_here items' s
    | [] => match_here items' []
    end
  end.

(** [re.search]: the match at the leftmost position that has one. *)
Fixpoint re_search (items : list item) (s : str) : option (list N) :=
  match match_here items s with
  | Some g => Some g
  | None =>
    match s with
    | [] => None
    | _ :: s' => re_search items s'
    end
  end.

Definition digit (d : N) : N := (48 + d)%N.

(** [([1-3])학년\s*([1-4])반] *)
Definition re_grade_class : list item :=
  [ Group (Range (digit 1) (digit 3)); One (Lit 54617%N); One (Lit 45380%N);
    Star Space; Group (Range (digit 1) (digit 4)); One (Lit 48152%N) ].

(** [([1-3])[- ]\s*([1-4])반?] *)
Definition re_grade_dash_class : list item :=
  [ Group (Range (digit 1) (digit 3)); One (AnyOf [45%N; 32%N]);
    Star Space; Group (Range (digit 1) (digit 4)); Opt (Lit 48152%N) ].

(** *** The staff directory (data/staff.json) *)

Record Teacher := {
  name : str;
  subject : option str;
  homeroom : option str;
  departments : list str;
  roles : list str
}.

Record Staff := {
  staff_name : str;
  role : str
}.

Record StaffDb := {
  teachers : list Teacher;
  staff : list Staff
}.

Definition subject_map : list (str * str) :=
  [ (py "국어", py "국어"); (py "수학", py "수학"); (py "영어", py "영어");
    (py "체육", py "체육"); (py "물리", py "물리"); (py "화학", py "화학");
    (py "생명과학", py "생명과학"); (py "지구과학", py "지구과학");
    (py "사회", py "사회"); (py "역사", py "역사"); (py "윤리", py "윤리");
    (py "정보", py "정보"); (py "중국어", py "중국어") ].

Definition dept_keywords : list str :=
  [ py "교무기획부"; py "진로진학부"; py "1학년부"; py "2학년부";
    py "학력연구부"; py "교육과정부"; py "안전인성부"; py "기숙사부" ].

Definition opt_eqb (a : option str) (b : str) : bool :=
  match a with
  | Some x => str_eqb x b
  | None => false
  end.

(** The first [Some] among the results of the loop body, in order. *)
Fixpoint first_return {A B} (body : A -> option B) (l : list A) : option B :=
  match l with
  | [] => None
  | x :: l' =>
    match body x with
    | Some r => Some r
    | None => first_return body l'
    end
  end.

Section WithData.
Context {U : Unicode} (STAFF_DB : StaffDb) (SCHOOL_KNOWLEDGE : str).

Definition answer_from_staff_db (question : str) : option str :=
  let q := strip question in
  let teachers := teachers STAFF_DB in
  let staff := staff STAFF_DB in
  match
    first_return
      (fun '(keyword, subject) =>
         if contains keyword q
            && (contains (py "교사") q || contains (py "선생") q)
         then
           let names :=
             map name (List.filter (fun t => opt_eqb (Main.subject t) subject)
                              teachers) in
           if nonempty_list names then
             let names_str := join (py ", ") names in
             Some (subject ++ py " 교사는 " ++ names_str
                           ++ py " 선생님입니다.")
           else None
         else None)
      subject_map
  with
  | Some answer => Some answer
  | None =>
    let m :=
      match re_search re_grade_class q with
      | Some g => Some g
      | None => re_search re_grade_dash_class q
      end in
    match (if contains (py "담임") q then m else None) with
    | Some [grade; cls] =>
      let code := [grade] ++ py "-" ++ [cls] in
      match
        first_return
          (fun t =>
             if opt_eqb (homeroom t) code
             then Some ([grade] ++ py "학년 " ++ [cls] ++ py "반 담임은 "
                          ++ name t ++ py " 선생님입니다.")
             else None)
          teachers
      with
      | Some answer => Some answer
      | None =>
        Some ([grade] ++ py "학년 " ++ [cls]
                ++ py "반 담임 정보는 데이터에 없습니다.")
      end
    | _ =>
      match
        first_return
          (fun dept =>
             if contains dept q && contains (py "부장") q then
               first_return
                 (fun t =>
                    if existsb (str_eqb dept) (departments t)
                       && existsb (contains (py "부장")) (roles t)
                    then Some (dept ++ py " 부장은 " ++ name t
                                    ++ py " 선생님입니다.")
                    else None)
                 teachers
             else None)
          dept_keywords
      with
      | Some answer => Some answer
      | None =>
        match
          (if contains (py "교장") q then
             first_return
               (fun s =>
                  if contains (py "교장") (role s)
                  then Some (py "창녕옥야고등학교 교장은 " ++ staff_name s
                               ++ py "입니다.")
                  else None)
               staff
           else None)
        with
        | Some answer => Some answer
        | None =>
          if contains (py "교감") q then
            first_return
              (fun s =>
                 if contains (py "교감") (role s)
                 then Some (py "창녕옥야고등학교 교감은 " ++ staff_name s
                              ++ py "입니다.")
                 else None)
              staff
          else None
        end
      end
    end
  end.

Definition SCHOOL_KEYWORDS : list str :=
  [ py "창녕옥야고"; py "옥야고"; py "우리학교"; py "학교"; py "교무실";
    py "행정실"; py "동아리"; py "학사"; py "학사일정"; py "급식";
    py "교복"; py "입학"; py "학생수"; py "시간표"; py "교칙"; py "시설";
    py "체육관"; py "도서관" ].

Definition is_school_question (q : str) : bool :=
  let q_lower := lower q in
  existsb (fun k => contains (lower k) q_lower) SCHOOL_KEYWORDS.

(** *** The model server

    [requests.post] either raises (with the text of the exception) or
    gives a response: its status, its body, and what [res.json()] and
    [data.get("message", {}).get("content")] give (the text of the
    exception when decoding raises). *)
Inductive post_result :=
| PostRaised (e : str)
| PostResponse (status_code : Z) (text : str) (content : str + option str).

Inductive chat_result :=
| RuntimeError (e : str)
| OtherException (e : str)
| Returned (answer : str).

Definition system_prompt (knowledge_block : str) : str :=
  if nonempty knowledge_block then
    py "당신은 창녕옥야고등학교 안내 챗봇입니다. "
    ++ py "반드시 자연스러운 한국어로만 답하십시오. "
    ++ py "아래 학교 정보를 최우선으로 참고해 정확히 답하십시오. "
    ++ py "학교 정보에 없는 내용은 추측하지 말고 '잘 모르겠습니다'라고 답하십시오. "
    ++ py "프롬프트의 라벨이나 학교 정보를 그대로 반복하지 말고, "
    ++ py "질문에 대한 최종 답만 간단히 말하십시오." ++ [LF; LF]
    ++ py "학교 정보:" ++ [LF] ++ knowledge_block
  else
    py "당신은 친절한 한국어 챗봇입니다. "
    ++ py "자연스러운 한국어로만 답하십시오. "
    ++ py "모르는 내용은 추측하지 말고 '잘 모르겠습니다'라고 답하십시오.".

Definition call_ollama_chat (post : str -> str -> post_result)
                            (user_question : str) : chat_result :=
  let knowledge_block := strip SCHOOL_KNOWLEDGE in
  match post (system_prompt knowledge_block) user_question with
  | PostRaised e => OtherException e
  | PostResponse status_code text content =>
    if negb (status_code =? 200) then
      RuntimeError (py "Ollama HTTP " ++ py (pretty status_code)
                       ++ py ": " ++ text)
    else
      match content with
      | inl e => OtherException e
      | inr content =>
        let answer := strip (default [] content) in
        if negb (nonempty answer)
        then Returned (py "(모델이 비어 있는 응답을 보냈습니다.)")
        else Returned answer
      end
  end.

(** *** The /ask endpoint *)

Record Question := { question : str }.

Inductive http_result :=
| Answer (answer : str)
| HTTPException (status_code : Z) (detail : str).

(** The collaborators [ask_ai] calls, in the order it calls them. *)
Inductive call :=
| Call_answer_from_staff_db (q : str)
| Call_is_school_question (q : str)
| Call_ollama_chat (q : str).

Definition ask_ai (post : str -> str -> post_result) (payload : Question)
  : list call * http_result :=
  let q := strip (question payload) in
  if negb (nonempty q) then
    ([], HTTPException 400 (py "question 필드가 비어 있습니다."))
  else
    let calls := [Call_answer_from_staff_db q] in
    match answer_from_staff_db q with
    | Some kb_answer => (calls, Answer kb_answer)
    | None =>
      let calls := calls ++ [Call_is_school_question q] in
      if is_school_question q && negb (nonempty SCHOOL_KNOWLEDGE) then
        (calls,
         Answer (py "현재 학교 홈페이지 기반 정보가 아직 준비되지 않았습니다. "
                 ++ py "학교 관련 질문은 나중에 다시 해 주십시오. "
                 ++ py "그 외 일반 질문이나 잡담은 가능합니다."))
      else
        let calls := calls ++ [Call_ollama_chat q] in
        match call_ollama_chat post q with
        | Returned answer => (calls, Answer answer)
        | RuntimeError e => (calls, HTTPException 500 e)
        | OtherException e =>
          (calls, HTTPException 500 (py "Server error: " ++ e))
        end
    end.

End WithData.

End Main.

(** ** urllib.parse on ASCII URLs

    [urlsplit] and [urlparse] as the standard library computes them, for
    URLs whose network location is ASCII and has no bracketed host: on
    those the library's two further checks (NFKC normalisation of a
    non-ASCII network location, validation of a bracketed address) do not
    run.  It serves to evaluate the crawler on concrete URLs; the general
    theorems do not depend on it. *)

Module UrlLib.

Import Crawler.
Local Open Scope N_scope.

(** The text before the first character satisfying [p], and the text from
    that character on. *)
Fixpoint break_at (p : N -> bool) (s : str) : str * str :=
  match s with
  | [] => ([], [])
  | c :: rest =>
    if p c then ([], s)
    else let '(a, b) := break_at p rest in (c :: a, b)
  end.

Definition is_char (k : string) (c : N) : bool := existsb (N.eqb c) (py k).

Definition is_ascii_alpha (c : N) : bool :=
  ((65 <=? c) && (c <=? 90)) || ((97 <=? c) && (c <=? 122)).

Definition scheme_char (c : N) : bool :=
  is_ascii_alpha c || ((48 <=? c) && (c <=? 57)) || is_char "+-." c.

Definition C0_control_or_space (c : N) : bool := c <=? 32.

Fixpoint lstrip_chars (p : N -> bool) (s : str) : str :=
  match s with
  | [] => []
  | c :: rest => if p c then lstrip_chars p rest else s
  end.

Definition uses_params : list str :=
  [ py ""; py "ftp"; py "hdl"; py "prospero"; py "http"; py "imap";
    py "https"; py "shttp"; py "rtsp"; py "rtspu"; py "sip"; py "sips";
    py "mms"; py "sftp"; py "tel" ].

(** [(scheme, netloc, url, query, fragment)], or [None] for [ValueError]. *)
Definition urlsplit (url : str) : option (str * str * str * str * str) :=
  let url := lstrip_chars C0_control_or_space url in
  let url := List.filter (fun c => negb ((c =? 9) || (c =? CR) || (c =? LF))) url in
  let '(scheme, url) :=
    match break_at (is_char ":") url with
    | (c0 :: pre, _ :: rest) =>
      if is_ascii_alpha c0 && forallb scheme_char (c0 :: pre)
      then (map lower_ascii_char (c0 :: pre), rest)
      else ([], url)
    | _ => ([], url)
    end in
  let split_netloc :=
    if startswith url (py "//")
    then
      let '(netloc, rest) := break_at (is_char "/?#") (drop 2 url) in
      if xorb (existsb (is_char "[") netloc) (existsb (is_char "]") netloc)
      then None
      else Some (netloc, rest)
    else Some ([], url) in
  match split_netloc with
  | None => None
  | Some (netloc, url) =>
    let '(url, fragment) :=
      match break_at (is_char "#") url with
      | (a, _ :: b) => (a, b)
      | (a, []) => (a, [])
      end in
    let '(url, query) :=
      match break_at (is_char "?") url with
      | (a, _ :: b) => (a, b)
      | (a, []) => (a, [])
      end in
    Some (scheme, netloc, url, query, fragment)
  end.

(** The text up to and including the last [/], and the text after it. *)
Fixpoint rsplit_slash (url : str) : str * str :=
  match url with
  | [] => ([], [])
  | c :: rest =>
    let '(a, b) := rsplit_slash rest in
    if existsb (is_char "/") url
    then (c :: a, b)
    else ([], url)
  end.

(** [_splitparams(url)[0]]: the path without the parameters of its last
    segment. *)
Definition splitparams_path (url : str) : str :=
  let '(dir, last) := rsplit_slash url in
  dir ++ fst (break_at (is_char ";") last).

Definition urlparse (url : str) : option ParseResult :=
  match urlsplit url with
  | None => None
  | Some (scheme, netloc, url, _, _) =>
    let path :=
      if existsb (str_eqb scheme) uses_params && existsb (is_char ";") url
      then splitparams_path url
      else url in
    Some {| scheme := scheme; netloc := netloc; path := path |}
  end.

(** The [hostname] attribute of a parse result: the network location
    without user information and port, in lower case. *)
Definition hostname (netloc : str) : str :=
  let hostinfo :=
    match break_at (is_char "@") (rev netloc) with
    | (a, _) => rev a
    end in
  let host :=
    match break_at (is_char "[") hostinfo with
    | (_, _ :: bracketed) => fst (break_at (is_char "]") bracketed)
    | (_, []) => fst (break_at (is_char ":") hostinfo)
    end in
  let '(h, zone) := break_at (is_char "%") host in
  map lower_ascii_char h ++ zone.

(** [urljoin] where the link is an absolute URL in normal form: the
    library parses both arguments, raising where [urlparse] raises, and
    gives the link back. *)
Definition urljoin_absolute (base url : str) : option str :=
  match urlparse base, urlparse url with
  | Some _, Some _ => Some url
  | _, _ => None
  end.

(** A closed web for running the crawler: a site is a table from URLs to
    pages; the markup of a page is represented by its URL, links are
    absolute, and no page can be fetched outside the table. *)
Record Page := {
  page_status : Z;
  page_title : str;
  page_text : str;
  page_hrefs : list str
}.

Definition lookup_page (site : list (str * Page)) (u : str) : option Page :=
  option_map snd (List.find (fun e => str_eqb (fst e) u) site).

Definition site_web (site : list (str * Page)) : Web unit := {|
  Crawler.urlparse := urlparse;
  urljoin := urljoin_absolute;
  requests_get := fun w u =>
    (w, option_map (fun p => {| status_code := page_status p; res_text := u |})
                   (lookup_page site u));
  soup_title := fun html => default [] (option_map page_title (lookup_page site html));
  soup_main_text := fun html => default [] (option_map page_text (lookup_page site html));
  soup_hrefs := fun html => default [] (option_map page_hrefs (lookup_page site html));
  md5_hexdigest := fun _ => []
|}.

End UrlLib.

(** * Properties *)

(** ** Facts on Python strings *)

Module PyStrFacts.

Local Open Scope N_scope.

Definition all_space (s : str) : Prop := Forall (fun c => isspace c = true) s.
Definition break_free (s : str) : Prop :=
  Forall (fun c => is_linebreak c = false) s.

Ltac bool_lia :=
  repeat match goal with
  | H : _ = true |- _ =>
    rewrite ?orb_true_iff, ?andb_true_iff, ?N.leb_le, ?N.eqb_eq in H
  | H : _ = false |- _ =>
    rewrite ?orb_false_iff, ?andb_false_iff, ?N.leb_gt, ?N.eqb_neq in H
  end;
  rewrite ?orb_true_iff, ?andb_true_iff, ?N.leb_le, ?N.eqb_eq,
          ?orb_false_iff, ?andb_false_iff, ?N.leb_gt, ?N.eqb_neq;
  lia.

Lemma linebreak_isspace c : is_linebreak c = true -> isspace c = true.
Proof. unfold is_linebreak, isspace. intros H. bool_lia. Qed.

Lemma not_space_not_break c : isspace c = false -> is_linebreak c = false.
Proof.
  intros H. destruct (is_linebreak c) eqn:E; [|done].
  apply linebreak_isspace in E. congruence.
Qed.

(** The model on the inputs where [str.splitlines] and [str.strip] are
    easy to get wrong. *)
Example splitlines_samples :
  map splitlines [ [97; CR; LF; 98]; [CR; CR; LF]; [97; LF; LF]; [LF]; [];
                   [97; CR]; [97; 11; 98; 8232; 99] ]
  = [ [[97]; [98]]; [[]; []]; [[97]; []]; [[]]; []; [[97]];
      [[97]; [98]; [99]] ].
Proof. reflexivity. Qed.

Example strip_samples :
  map strip [ py "  ab c  "; [12288; 97; 160; 10]; py "   "; [] ]
  = [ py "ab c"; [97]; []; [] ].
Proof. reflexivity. Qed.

(** *** strip *)

Lemma rstrip_nil s : rstrip s = [] <-> all_space s.
Proof.
  induction s as [|c s IH]; simpl.
  - split; [constructor | done].
  - destruct (rstrip s) eqn:E.
    + destruct (isspace c) eqn:Ec.
      * split; [|done]. intros _. constructor; [done | by apply IH].
      * split; [done|]. intros H. inversion H; congruence.
    + split; [done|]. intros H. inversion H as [|? ? _ Hs]; subst.
      apply IH in Hs. done.
Qed.

Lemma lstrip_nil s : lstrip s = [] <-> all_space s.
Proof.
  induction s as [|c s IH]; simpl.
  - split; [constructor | done].
  - destruct (isspace c) eqn:Ec.
    + rewrite IH. split; [by constructor | by inversion 1].
    + split; [done|]. intros H. inversion H; congruence.
Qed.

Lemma lstrip_app_space w s : all_space w -> lstrip (w ++ s) = lstrip s.
Proof. induction 1 as [|c w Hc _ IH]; simpl; [done|]. by rewrite Hc. Qed.

Lemma rstrip_app_space s w : all_space w -> rstrip (s ++ w) = rstrip s.
Proof.
  intros Hw. induction s as [|c s IH]; simpl.
  - by apply rstrip_nil.
  - by rewrite IH.
Qed.

Lemma lstrip_decomp s : exists w, all_space w /\ s = w ++ lstrip s.
Proof.
  induction s as [|c s (w & Hw & IH)]; simpl.
  - exists []. split; [constructor | done].
  - destruct (isspace c) eqn:Ec.
    + exists (c :: w). split; [by constructor|]. simpl. by f_equal.
    + exists []. split; [constructor | done].
Qed.

Lemma rstrip_decomp s : exists w, all_space w /\ s = rstrip s ++ w.
Proof.
  induction s as [|c s (w & Hw & IH)]; simpl.
  - exists []. split; [constructor | done].
  - destruct (rstrip s) eqn:E.
    + simpl in IH. subst w. destruct (isspace c) eqn:Ec.
      * exists (c :: s). split; [by constructor | done].
      * exists s. split; [done | done].
    + exists w. split; [done|]. rewrite IH at 1. done.
Qed.

Lemma rstrip_cons_not_space c s :
  isspace c = false -> exists r, rstrip (c :: s) = c :: r.
Proof. simpl. intros ->. destruct (rstrip s); eauto. Qed.

Lemma strip_comm s : rstrip (lstrip s) = lstrip (rstrip s).
Proof.
  induction s as [|c s IH]; [done|]. simpl lstrip at 1.
  destruct (isspace c) eqn:Ec.
  - rewrite IH. simpl. destruct (rstrip s) eqn:E.
    + by rewrite Ec.
    + simpl. by rewrite Ec.
  - destruct (rstrip_cons_not_space c s Ec) as [r ->]. simpl. by rewrite Ec.
Qed.

Lemma strip_cons_space c s : isspace c = true -> strip (c :: s) = strip s.
Proof. unfold strip. simpl. by intros ->. Qed.

Lemma strip_app_space s w : all_space w -> strip (s ++ w) = strip s.
Proof. intros Hw. unfold strip. by rewrite !strip_comm, rstrip_app_space. Qed.

Lemma strip_space w : all_space w -> strip w = [].
Proof. intros Hw. unfold strip. apply lstrip_nil in Hw. by rewrite Hw. Qed.

Lemma strip_nil s : strip s = [] -> all_space s.
Proof.
  unfold strip. intros H. apply rstrip_nil in H.
  destruct (lstrip_decomp s) as (w & Hw & E). rewrite E.
  by apply Forall_app.
Qed.

Lemma lstrip_idem s : lstrip (lstrip s) = lstrip s.
Proof.
  induction s as [|c s IH]; [done|]. simpl.
  destruct (isspace c) eqn:Ec; [done|]. simpl. by rewrite Ec.
Qed.

Lemma rstrip_idem s : rstrip (rstrip s) = rstrip s.
Proof.
  destruct (rstrip_decomp s) as (w & Hw & E).
  rewrite E at 2. by rewrite rstrip_app_space.
Qed.

Lemma strip_idem s : strip (strip s) = strip s.
Proof.
  unfold strip. rewrite (strip_comm (rstrip _)), rstrip_idem.
  by rewrite <- strip_comm, lstrip_idem.
Qed.

Lemma lstrip_Forall (P : N -> Prop) s : Forall P s -> Forall P (lstrip s).
Proof.
  induction 1 as [|c s Hc Hs IH]; simpl; [constructor|].
  destruct (isspace c); [done | by constructor].
Qed.

Lemma rstrip_Forall (P : N -> Prop) s : Forall P s -> Forall P (rstrip s).
Proof.
  induction 1 as [|c s Hc Hs IH]; simpl; [constructor|].
  destruct (rstrip s).
  - destruct (isspace c); [constructor | by repeat constructor].
  - by constructor.
Qed.

Lemma strip_Forall (P : N -> Prop) s : Forall P s -> Forall P (strip s).
Proof. intros. by apply rstrip_Forall, lstrip_Forall. Qed.

(** *** splitlines *)

Lemma prepend_not_nil c ls : prepend c ls <> [].
Proof. by destruct ls. Qed.

Lemma linebreak_CR : is_linebreak CR = true.
Proof. reflexivity. Qed.

Lemma splitlines_cons_plain c s :
  is_linebreak c = false -> splitlines (c :: s) = prepend c (splitlines s).
Proof.
  intros Hc. simpl. rewrite Hc.
  destruct (c =? CR) eqn:E; [|done].
  apply N.eqb_eq in E. subst c. by rewrite linebreak_CR in Hc.
Qed.

Lemma splitlines_break p x u :
  break_free p -> is_linebreak x = true ->
  (x =? CR) && starts_with_LF u = false ->
  splitlines (p ++ x :: u) = p :: splitlines u.
Proof.
  intros Hp Hx Hc. induction Hp as [|a p Ha _ IH]; simpl app.
  - simpl. by rewrite Hc, Hx.
  - by rewrite splitlines_cons_plain, IH.
Qed.

Lemma splitlines_CRLF p u :
  break_free p -> splitlines (p ++ CR :: LF :: u) = p :: splitlines u.
Proof.
  intros Hp. induction Hp as [|a p Ha _ IH]; simpl app.
  - reflexivity.
  - by rewrite splitlines_cons_plain, IH.
Qed.

Lemma splitlines_one_line p :
  break_free p -> p <> [] -> splitlines p = [p].
Proof.
  induction 1 as [|a p Ha Hp IH]; [done|]. intros _.
  rewrite splitlines_cons_plain by done.
  destruct p as [|b p]; [done|]. by rewrite IH.
Qed.

Lemma splitlines_break_free s : Forall break_free (splitlines s).
Proof.
  induction s as [|c s IH]; simpl; [constructor|].
  destruct ((c =? CR) && starts_with_LF s); [done|].
  destruct (is_linebreak c) eqn:Ec.
  - constructor; [constructor | done].
  - destruct IH as [|l ls Hl Hls]; simpl.
    + repeat constructor. done.
    + constructor; [by constructor | done].
Qed.

(** The stripped, non-empty lines of a text: all that [clean_lines] reads
    of its lines. *)
Definition content_lines (s : str) : list str :=
  List.filter nonempty (map strip (splitlines s)).

Lemma content_lines_cons_line p u :
  List.filter nonempty (map strip (p :: splitlines u))
  = List.filter nonempty [strip p] ++ content_lines u.
Proof. unfold content_lines. simpl. by destruct (nonempty (strip p)). Qed.

Lemma content_lines_cons_space c s :
  isspace c = true -> content_lines (c :: s) = content_lines s.
Proof.
  intros Hc. unfold content_lines. simpl splitlines.
  destruct ((c =? CR) && starts_with_LF s); [done|].
  destruct (is_linebreak c); [done|].
  destruct (splitlines s) as [|l ls]; simpl.
  - by rewrite (strip_cons_space c []).
  - by rewrite strip_cons_space.
Qed.

Lemma content_lines_lstrip s : content_lines (lstrip s) = content_lines s.
Proof.
  induction s as [|c s IH]; [done|]. simpl.
  destruct (isspace c) eqn:Ec; [|done].
  by rewrite content_lines_cons_space.
Qed.

Lemma content_lines_break_free p :
  break_free p -> content_lines p = List.filter nonempty [strip p].
Proof.
  intros Hp. destruct p as [|a p]; [done|].
  unfold content_lines. by rewrite splitlines_one_line.
Qed.

Lemma content_lines_snoc_space t : forall p c,
  break_free p -> isspace c = true ->
  content_lines (p ++ t ++ [c]) = content_lines (p ++ t).
Proof.
  induction t as [|x t IH]; intros p c Hp Hc.
  - rewrite app_nil_r. simpl app. rewrite (content_lines_break_free p Hp).
    destruct (is_linebreak c) eqn:Eb.
    + unfold content_lines at 1.
      rewrite splitlines_break by (done || apply andb_false_r). done.
    + rewrite content_lines_break_free
        by (apply Forall_app; split; [done | by repeat constructor]).
      rewrite strip_app_space; [done | by repeat constructor].
  - destruct (is_linebreak x) eqn:Ex.
    + specialize (IH [] c (List.Forall_nil _) Hc). simpl app in IH.
      unfold content_lines at 1 2.
      destruct ((x =? CR) && starts_with_LF t) eqn:Ecr.
      * apply andb_true_iff in Ecr as [Ex' Et]. apply N.eqb_eq in Ex'.
        destruct t as [|y t]; [done|]. simpl in Et. apply N.eqb_eq in Et.
        subst x y. simpl app. rewrite !splitlines_CRLF by done.
        rewrite !content_lines_cons_line. f_equal.
        rewrite <- (content_lines_cons_space LF (t ++ [c])) by done.
        rewrite <- (content_lines_cons_space LF t) by done. done.
      * destruct t as [|y t].
        -- simpl app.
           rewrite (splitlines_break p x []) by (done || apply andb_false_r).
           destruct ((x =? CR) && (c =? LF)) eqn:Ecl.
           ++ apply andb_true_iff in Ecl as [Ex' Ec'].
              apply N.eqb_eq in Ex'. apply N.eqb_eq in Ec'. subst x c.
              by rewrite splitlines_CRLF.
           ++ rewrite splitlines_break by done.
              rewrite !content_lines_cons_line. f_equal.
              by apply (content_lines_cons_space c []).
        -- simpl app. rewrite !splitlines_break by done.
           rewrite !content_lines_cons_line. by f_equal.
    + replace (p ++ (x :: t) ++ [c]) with ((p ++ [x]) ++ t ++ [c])
        by (by rewrite <- app_assoc).
      replace (p ++ x :: t) with ((p ++ [x]) ++ t)
        by (by rewrite <- app_assoc).
      apply IH; [|done]. apply Forall_app. split; [done | by repeat constructor].
Qed.

Lemma content_lines_app_space w : forall s,
  all_space w -> content_lines (s ++ w) = content_lines s.
Proof.
  induction w as [|c w IH]; intros s Hw.
  - by rewrite app_nil_r.
  - inversion Hw as [|? ? Hc Hw']; subst.
    replace (s ++ c :: w) with ((s ++ [c]) ++ w) by (by rewrite <- app_assoc).
    rewrite IH by done.
    by apply (content_lines_snoc_space s []); [constructor|].
Qed.

Lemma content_lines_rstrip s : content_lines (rstrip s) = content_lines s.
Proof.
  destruct (rstrip_decomp s) as (w & Hw & E).
  rewrite E at 2. by rewrite content_lines_app_space.
Qed.

Lemma content_lines_strip s : content_lines (strip s) = content_lines s.
Proof.
  unfold strip. by rewrite content_lines_rstrip, content_lines_lstrip.
Qed.

Lemma join_cons_cons sep x y l :
  join sep (x :: y :: l) = x ++ sep ++ join sep (y :: l).
Proof. reflexivity. Qed.

Lemma splitlines_join ks :
  Forall (fun k => break_free k /\ k <> []) ks ->
  splitlines (join [LF] ks) = ks.
Proof.
  induction 1 as [|k ks [Hk Hne] Hks IH]; [done|].
  destruct ks as [|k' ks'].
  - by apply splitlines_one_line.
  - rewrite join_cons_cons.
    change (k ++ [LF] ++ ?r) with (k ++ LF :: r).
    rewrite splitlines_break by done. by rewrite IH.
Qed.

Lemma join_not_nil sep k ks : k <> [] -> join sep (k :: ks) <> [].
Proof. intros Hk. simpl. destruct ks; [done|]. by destruct k. Qed.

(** *** [in], [startswith], [endswith] *)

Lemma startswith_spec s pre :
  startswith s pre = true <-> exists post, s = pre ++ post.
Proof.
  revert s. induction pre as [|p pre IH]; intros s.
  - split; [eauto | by destruct s].
  - destruct s as [|c s]; simpl.
    + split; [done | by intros [? ?]].
    + rewrite andb_true_iff, N.eqb_eq, IH. split.
      * intros [-> [post ->]]. eauto.
      * intros [post E]. injection E as -> ->. eauto.
Qed.

Lemma contains_spec sub s :
  contains sub s = true <-> exists a b, s = a ++ sub ++ b.
Proof.
  induction s as [|c s IH].
  - change (contains sub []) with (startswith [] sub || false).
    rewrite orb_false_r, startswith_spec. split.
    + intros [post E]. by exists [], post.
    + intros (a & b & E). destruct a; [by exists b|done].
  - change (contains sub (c :: s))
      with (startswith (c :: s) sub || contains sub s).
    rewrite orb_true_iff, startswith_spec, IH. split.
    + intros [[post E] | (a & b & E)].
      * by exists [], post.
      * exists (c :: a), b. simpl. by f_equal.
    + intros (a & b & E). destruct a as [|c' a].
      * left. by exists b.
      * right. injection E as -> E. eauto.
Qed.

Lemma str_eqb_eq a b : str_eqb a b = true <-> a = b.
Proof. unfold str_eqb. apply bool_decide_eq_true. Qed.

Lemma endswith_spec s suf :
  endswith s suf = true <-> exists a, s = a ++ suf.
Proof.
  unfold endswith. rewrite andb_true_iff, Nat.leb_le, str_eqb_eq. split.
  - intros [Hlen E]. exists (take (length s - length suf) s).
    pose proof (take_drop (length s - length suf) s) as T.
    rewrite E in T. by symmetry.
  - intros [a ->]. rewrite length_app. split; [lia|].
    replace (length a + length suf - length suf)%nat with (length a) by lia.
    by rewrite drop_app_length.
Qed.

End PyStrFacts.

(** ** clean_lines *)

Module CleanLines.

Import Crawler PyStrFacts.

Section Facts.
Context {U : Unicode}.

Lemma is_noise_nil : is_noise [] = true.
Proof. reflexivity. Qed.

Lemma not_noise_nonempty ln : is_noise ln = false -> ln <> [].
Proof. intros H ->. by rewrite is_noise_nil in H. Qed.

Lemma clean_step_cases acc ln :
  clean_step acc ln = acc
  \/ (is_noise ln = false /\ clean_step acc ln = acc ++ [ln]).
Proof.
  unfold clean_step. destruct (is_noise ln); [by left|].
  destruct (nonempty_list acc && str_eqb (List.last acc []) ln);
    [by left | by right].
Qed.

(** Blank lines never reach the kept lines. *)
Lemma fold_clean_filter lines : forall acc,
  fold_left clean_step (List.filter nonempty lines) acc
  = fold_left clean_step lines acc.
Proof.
  induction lines as [|l lines IH]; intros acc; [done|].
  destruct l as [|c l]; simpl.
  - by rewrite IH.
  - apply IH.
Qed.

Lemma kept_content_lines text :
  fold_left clean_step (map strip (splitlines text)) []
  = fold_left clean_step (content_lines text) [].
Proof. unfold content_lines. by rewrite fold_clean_filter. Qed.

Lemma fold_clean_elem lines : forall acc k,
  In k (fold_left clean_step lines acc) ->
  In k acc \/ (In k lines /\ is_noise k = false).
Proof.
  induction lines as [|l lines IH]; intros acc k Hk; simpl in *; [by left|].
  apply IH in Hk as [Hk | [Hk Hn]]; [|by right; split; [right|]].
  destruct (clean_step_cases acc l) as [E | [Hn E]]; rewrite E in Hk.
  - by left.
  - apply in_app_or in Hk as [Hk | [-> | []]]; [by left|].
    right. split; [by left | done].
Qed.

(** Running the loop again over lines it has kept keeps them all. *)
Lemma fold_clean_fixed lines : forall acc,
  fold_left clean_step acc [] = acc ->
  fold_left clean_step (fold_left clean_step lines acc) []
  = fold_left clean_step lines acc.
Proof.
  induction lines as [|l lines IH]; intros acc Hacc; simpl; [done|].
  apply IH. destruct (clean_step_cases acc l) as [E | [Hn E]].
  - by rewrite E.
  - rewrite E at 1. rewrite fold_left_app, Hacc. done.
Qed.

Lemma kept_lines_shape text k :
  In k (fold_left clean_step (map strip (splitlines text)) []) ->
  break_free k /\ k <> [] /\ strip k = k.
Proof.
  intros Hk. apply fold_clean_elem in Hk as [[] | [Hk Hn]].
  apply in_map_iff in Hk as (l & <- & Hl).
  split; [|split].
  - apply strip_Forall.
    pose proof (splitlines_break_free text) as Hbf.
    rewrite List.Forall_forall in Hbf. by apply Hbf.
  - by apply not_noise_nonempty.
  - apply strip_idem.
Qed.

End Facts.

(** C7.  [clean_lines] is idempotent: cleaning a cleaned text gives the
    cleaned text back, whatever the case tables of [str.lower] are. *)
Theorem clean_lines_idempotent {U : Unicode} (text : str) :
  clean_lines (clean_lines text) = clean_lines text.
Proof.
  unfold clean_lines at 2.
  destruct (fold_left clean_step (map strip (splitlines text)) [])
    as [|k ks] eqn:EK.
  - unfold clean_lines.
    rewrite (kept_content_lines (strip text)), content_lines_strip,
      <- kept_content_lines, EK.
    apply strip_idem.
  - assert (Hshape : forall x, In x (k :: ks) ->
                       break_free x /\ x <> [] /\ strip x = x)
      by (intros x Hx; apply (kept_lines_shape text); rewrite EK; exact Hx).
    unfold clean_lines. rewrite splitlines_join.
    + replace (map strip (k :: ks)) with (k :: ks).
      * assert (Hfix : fold_left clean_step (k :: ks) [] = k :: ks)
          by (rewrite <- EK; by apply fold_clean_fixed).
        by rewrite Hfix, EK.
      * symmetry. rewrite <- (map_id (k :: ks)) at 2.
        apply map_ext_in. intros x Hx. by apply Hshape.
    + apply List.Forall_forall. intros x Hx.
      destruct (Hshape x Hx) as (? & ? & ?). done.
Qed.

(** C2 (as amended).  When the input is not empty once trimmed,
    [clean_lines] does not return the empty string. *)
Theorem clean_lines_nonempty {U : Unicode} (text : str) :
  strip text <> [] -> clean_lines text <> [].
Proof.
  intros Htext. unfold clean_lines.
  destruct (fold_left clean_step (map strip (splitlines text)) [])
    as [|k ks] eqn:EK; [done|].
  apply join_not_nil.
  apply (kept_lines_shape text). rewrite EK. by left.
Qed.

Lemma clean_lines_nonempty_witness :
  strip (py "hello world") <> []
  /\ @clean_lines lower_ascii (py "hello world") <> [].
Proof.
  split; [done|]. by apply (@clean_lines_nonempty lower_ascii).
Defined.

(** C2 (as stated) fails: a single space is a non-empty input, every line
    of it is dropped, and the fallback returns its trimmed form, which is
    empty. *)
Lemma clean_lines_blank_input :
  py " " <> [] /\ @clean_lines lower_ascii (py " ") = [].
Proof. split; [done | reflexivity]. Qed.

End CleanLines.

(** ** The URL filter *)

Module UrlFilter.

Import Crawler PyStrFacts.

Section Facts.
Context {U : Unicode} {World : Type} {W : Web World} (cfg : Config).

Lemma blocked_ext_spec s :
  existsb (fun ext => endswith s ext) blocked_ext = false
  <-> forall ext, In ext blocked_ext -> ~ exists a, s = a ++ ext.
Proof.
  split.
  - intros H ext Hin Hex. apply endswith_spec in Hex.
    assert (existsb (fun ext => endswith s ext) blocked_ext = true)
      by (apply existsb_exists; eauto).
    congruence.
  - intros H. destruct (existsb _ blocked_ext) eqn:E; [|done].
    apply existsb_exists in E as (ext & Hin & He).
    apply endswith_spec in He. by destruct (H ext Hin).
Qed.

(** A URL whose network location lacks the allowed domain is rejected,
    whatever its scheme and path. *)
Lemma rejects_foreign_netloc url parsed :
  urlparse url = Some parsed ->
  contains (ALLOWED_DOMAIN cfg) (netloc parsed) = false ->
  is_allowed_url cfg url = false.
Proof.
  intros Hp Hn. unfold is_allowed_url. rewrite Hp, Hn.
  by destruct (negb _).
Qed.

(** A URL whose path ends, in lower case, with a blocked extension is
    rejected, whatever its scheme and network location. *)
Lemma rejects_blocked_ext url parsed ext :
  urlparse url = Some parsed ->
  In ext blocked_ext -> endswith (lower (path parsed)) ext = true ->
  is_allowed_url cfg url = false.
Proof.
  intros Hp Hin He. unfold is_allowed_url. rewrite Hp.
  assert (E : existsb (fun ext => endswith (lower (path parsed)) ext)
                blocked_ext = true) by (apply existsb_exists; eauto).
  rewrite E. by repeat destruct (negb _).
Qed.

End Facts.

(** [UrlLib.urlparse] on sample URLs, as [urllib.parse.urlparse] answers. *)
Example urlparse_samples :
  map (fun u => option_map (fun r => (scheme r, netloc r, path r))
                  (UrlLib.urlparse (py u)))
      [ "https://ogya-h.gne.go.kr/ogya-h/main.do";
        "HTTP://OGYA-H.GNE.GO.KR/A.PDF";
        "https://u:p@Host.com:80/p;x/q;y?k=v#frag";
        "mailto:a@b"; "/rel/path.PDF"; "https://a[b/" ]%string
  = [ Some (py "https", py "ogya-h.gne.go.kr", py "/ogya-h/main.do");
      Some (py "http", py "OGYA-H.GNE.GO.KR", py "/A.PDF");
      Some (py "https", py "u:p@Host.com:80", py "/p;x/q");
      Some (py "mailto", py "", py "a@b");
      Some (py "", py "", py "/rel/path.PDF");
      None ].
Proof. vm_compute. reflexivity. Qed.

(** C3 (as amended).  [is_allowed_url] accepts a URL exactly when
    [urlparse] succeeds on it, the scheme is http or https, the allowed
    domain occurs in the network location ([netloc], which holds the user
    information and the port besides the host), and the lower-cased path
    ends with none of the fourteen blocked extensions. *)
Theorem is_allowed_url_spec {U : Unicode} {World : Type} {W : Web World}
    (cfg : Config) (url : str) :
  is_allowed_url cfg url = true <->
  exists parsed,
    urlparse url = Some parsed
    /\ (scheme parsed = py "http" \/ scheme parsed = py "https")
    /\ (exists a b, netloc parsed = a ++ ALLOWED_DOMAIN cfg ++ b)
    /\ (forall ext,
          In ext [ py ".pdf"; py ".hwp"; py ".hwpx"; py ".xls"; py ".xlsx";
                   py ".doc"; py ".docx"; py ".ppt"; py ".pptx";
                   py ".jpg"; py ".jpeg"; py ".png"; py ".gif"; py ".zip" ] ->
          ~ exists a, lower (path parsed) = a ++ ext).
Proof.
  unfold is_allowed_url. destruct (urlparse url) as [parsed|].
  - split.
    + intros H.
      destruct (str_eqb (scheme parsed) (py "http")
                || str_eqb (scheme parsed) (py "https")) eqn:Es; [|done].
      destruct (contains (ALLOWED_DOMAIN cfg) (netloc parsed)) eqn:En;
        [|done].
      destruct (existsb _ blocked_ext) eqn:Ee; [done|].
      exists parsed. split; [done|]. split; [|split].
      * apply orb_true_iff in Es. by rewrite !str_eqb_eq in Es.
      * by apply contains_spec.
      * by apply blocked_ext_spec.
    + intros (p & [= <-] & Hs & Hn & He).
      rewrite <- !str_eqb_eq, <- orb_true_iff in Hs.
      apply contains_spec in Hn. apply blocked_ext_spec in He.
      by rewrite Hs, Hn, He.
  - split; [done | by intros (p & ? & _)].
Qed.

(** C3 (as stated) fails: the allowed domain can stand in the user
    information of a URL whose host is another one, and the filter
    accepts it. *)
Lemma is_allowed_url_userinfo :
  @is_allowed_url lower_ascii unit (UrlLib.site_web []) source_config
     (py "https://ogya-h.gne.go.kr@evil.com/") = true
  /\ option_map (fun parsed => (UrlLib.hostname (netloc parsed),
                                contains (ALLOWED_DOMAIN source_config)
                                         (UrlLib.hostname (netloc parsed))))
       (UrlLib.urlparse (py "https://ogya-h.gne.go.kr@evil.com/"))
     = Some (py "evil.com", false).
Proof. split; vm_compute; reflexivity. Qed.

End UrlFilter.

(** ** The crawl loop *)

Module CrawlLoop.

Import Crawler PyStrFacts.

Section Facts.
Context {U : Unicode} {World : Type} {W : Web World} (cfg : Config).

Lemma loop_step_inv st st' :
  loop_step cfg st = Some st' ->
  exists url depth queue',
    queue st = (url, depth) :: queue'
    /\ page_count st < MAX_PAGES cfg
    /\ st' = loop_body cfg st url depth queue'.
Proof.
  unfold loop_step. destruct (raised st); [done|].
  destruct (queue st) as [|[url depth] queue']; [done|].
  destruct (Z.ltb_spec (page_count st) (MAX_PAGES cfg)); [|done].
  intros [= <-]. eauto 6.
Qed.

Lemma loop_step_not_raised st st' :
  loop_step cfg st = Some st' -> raised st = false.
Proof. unfold loop_step. by destruct (raised st). Qed.

(** A turn of the loop either skips its task, leaving the output and the
    counter as they were, or saves exactly one record for it. *)
Inductive turn (st : State World) (url : str) (depth : Z)
               (queue' : list (str * Z)) (st' : State World) : Prop :=
| turn_skip :
    out st' = out st ->
    page_count st' = page_count st ->
    visited st ⊆ visited st' ->
    queue st' = queue' ->
    turn st url depth queue' st'
| turn_save record new :
    url ∉ visited st ->
    depth <= MAX_DEPTH cfg ->
    is_allowed_url cfg url = true ->
    Crawler.url record = url ->
    Crawler.depth record = depth ->
    text record <> [] ->
    out st' = out st ++ [record] ->
    page_count st' = page_count st + 1 ->
    visited st' = {[url]} ∪ visited st ->
    queue st' = queue' ++ new ->
    turn st url depth queue' st'.

Lemma enqueue_links_app (visited' : gset str) depth links : forall q,
  exists new,
    fold_left (fun q link =>
                 if bool_decide (link ∈ visited') then q
                 else q ++ [(link, depth + 1)]) links q = q ++ new.
Proof.
  induction links as [|l links IH]; intros q; simpl.
  - exists []. by rewrite app_nil_r.
  - case_bool_decide.
    + apply IH.
    + destruct (IH (q ++ [(l, depth + 1)])) as [new ->].
      exists ((l, depth + 1) :: new). by rewrite <- app_assoc.
Qed.

Lemma loop_body_turn st url depth queue' :
  turn st url depth queue' (loop_body cfg st url depth queue').
Proof.
  unfold loop_body. case_bool_decide as Hv.
  { by apply turn_skip. }
  destruct (Z.gtb_spec depth (MAX_DEPTH cfg)) as [Hd|Hd].
  { apply turn_skip; simpl; [done | done | set_solver | done]. }
  destruct (is_allowed_url cfg url) eqn:Ha; simpl negb; cbv iota;
    [|apply turn_skip; simpl; [done | done | set_solver | done]].
  destruct (fetch_html (world st) (log st) url) as [[w' log'] [html|]];
    [|apply turn_skip; simpl; [done | done | set_solver | done]].
  unfold extract_main_text.
  destruct (clean_lines (soup_main_text html)) as [|c text] eqn:Et; simpl negb;
    cbv iota.
  { apply turn_skip; simpl; [done | done | set_solver | done]. }
  destruct (extract_links cfg url html) as [links|].
  - destruct (enqueue_links_app ({[url]} ∪ visited st) depth links queue')
      as [new Hnew].
    eapply (turn_save _ _ _ _ _ _ new); simpl; try done; by simpl.
  - eapply (turn_save _ _ _ _ _ _ []); simpl; rewrite ?app_nil_r; try done;
      by simpl.
Qed.

Lemma run_invariant (P : State World -> Prop) :
  (forall st st', P st -> loop_step cfg st = Some st' -> P st') ->
  forall n st, P st -> P (run cfg n st).
Proof.
  intros Hstep. induction n as [|n IH]; intros st Hst; simpl; [done|].
  destruct (loop_step cfg st) as [st'|] eqn:E; [|done].
  apply IH. by apply (Hstep st).
Qed.

(** *** Uniqueness of URLs in the output *)

Definition unique_urls (st : State World) : Prop :=
  NoDup (map url (out st)) /\ forall r, In r (out st) -> url r ∈ visited st.

Lemma unique_urls_step st st' :
  unique_urls st -> loop_step cfg st = Some st' -> unique_urls st'.
Proof.
  intros [Hnd Hvis] Hstep.
  apply loop_step_inv in Hstep as (u & d & q' & Hq & Hlt & ->).
  destruct (loop_body_turn st u d q')
    as [Ho _ Hsub _ | r new Hu _ _ Hru _ _ Ho _ Hadd _];
    unfold unique_urls; rewrite Ho.
  - split; [done|]. intros r Hr. apply Hsub. by apply Hvis.
  - split.
    + rewrite map_app. simpl. apply NoDup_app. split; [done|]. split.
      * intros x Hx Hx'. apply list_elem_of_In in Hx, Hx'.
        destruct Hx' as [<- | []].
        apply in_map_iff in Hx as (r' & E & Hr').
        apply Hvis in Hr'. rewrite E, Hru in Hr'. done.
      * apply NoDup_singleton.
    + intros r' Hr'. rewrite Hadd.
      apply in_app_or in Hr' as [Hr' | [E | []]].
      * apply elem_of_union_r. by apply Hvis.
      * rewrite <- E, Hru. apply elem_of_union_l. by apply elem_of_singleton.
Qed.

(** *** The page counter *)

Definition counted (st : State World) : Prop :=
  page_count st = Z.of_nat (length (out st))
  /\ page_count st <= Z.max 0 (MAX_PAGES cfg).

Lemma counted_step st st' :
  counted st -> loop_step cfg st = Some st' -> counted st'.
Proof.
  intros [Hlen Hmax] Hstep.
  apply loop_step_inv in Hstep as (u & d & q' & Hq & Hlt & ->).
  destruct (loop_body_turn st u d q')
    as [Ho Hc _ _ | r new _ _ _ _ _ _ Ho Hc _ _];
    unfold counted; rewrite Ho, Hc.
  - done.
  - rewrite length_app. simpl. lia.
Qed.

(** *** Depth of the records *)

Definition shallow (st : State World) : Prop :=
  forall r, In r (out st) -> depth r <= MAX_DEPTH cfg.

Lemma shallow_step st st' :
  shallow st -> loop_step cfg st = Some st' -> shallow st'.
Proof.
  intros Hsh Hstep.
  apply loop_step_inv in Hstep as (u & d & q' & Hq & Hlt & ->).
  destruct (loop_body_turn st u d q')
    as [Ho _ _ _ | r new _ Hd _ _ Hrd _ Ho _ _ _];
    unfold shallow; rewrite Ho.
  - done.
  - intros r' [Hr' | [<- | []]]%in_app_or; [by apply Hsh | by rewrite Hrd].
Qed.

(** *** Termination *)

Lemma run_step n st st' :
  loop_step cfg st = Some st' -> run cfg (S n) st = run cfg n st'.
Proof. simpl. by intros ->. Qed.

Lemma run_stop n st : loop_step cfg st = None -> run cfg n st = st.
Proof. destruct n; simpl; [done|]. by intros ->. Qed.

Lemma run_stable n : forall st k,
  loop_step cfg (run cfg n st) = None ->
  run cfg (n + k) st = run cfg n st.
Proof.
  induction n as [|n IH]; intros st k Hstop; simpl in *.
  - by apply run_stop.
  - destruct (loop_step cfg st) as [st'|]; [by apply IH | done].
Qed.

(** The pages still allowed decrease at every saved record, and the queue
    gets shorter at every other turn. *)
Lemma loop_terminates_within (pages_left : nat) : forall st,
  (Z.to_nat (MAX_PAGES cfg - page_count st) <= pages_left)%nat ->
  exists n, loop_step cfg (run cfg n st) = None.
Proof.
  induction pages_left as [|pages_left IHp]; intros st Hleft.
  - exists 0%nat. simpl. unfold loop_step. destruct (raised st); [done|].
    destruct (queue st) as [|[u d] q']; [done|].
    destruct (Z.ltb_spec (page_count st) (MAX_PAGES cfg)); [lia | done].
  - remember (length (queue st)) as len eqn:Elen.
    revert st Hleft Elen.
    induction len as [|len IHq]; intros st Hleft Elen.
    + exists 0%nat. simpl. unfold loop_step. destruct (raised st); [done|].
      by destruct (queue st).
    + destruct (loop_step cfg st) as [st'|] eqn:Estep;
        [|by exists 0%nat].
      pose proof Estep as Hinv.
      apply loop_step_inv in Hinv as (u & d & q' & Hq & Hlt & ->).
      destruct (loop_body_turn st u d q')
        as [_ Hc _ Hq' | r new _ _ _ _ _ _ _ Hc _ _].
      * destruct (IHq (loop_body cfg st u d q')) as [n Hn].
        -- rewrite Hc. done.
        -- rewrite Hq'. rewrite Hq in Elen. simpl in Elen. lia.
        -- exists (S n). by rewrite (run_step n st _ Estep).
      * destruct (IHp (loop_body cfg st u d q')) as [n Hn].
        -- rewrite Hc. lia.
        -- exists (S n). by rewrite (run_step n st _ Estep).
Qed.

Lemma loop_terminates st : exists n, loop_step cfg (run cfg n st) = None.
Proof.
  by apply (loop_terminates_within
              (Z.to_nat (MAX_PAGES cfg - page_count st)) st).
Qed.

(** *** Exceptions *)

Lemma crawl_raised_none w n :
  raised (run cfg n (init_state cfg w)) = true ->
  forall k, crawl cfg (n + k) w = None.
Proof.
  intros Hr k.
  assert (Hstop : loop_step cfg (run cfg n (init_state cfg w)) = None)
    by (unfold loop_step; by rewrite Hr).
  unfold crawl. by rewrite (run_stable n _ k Hstop), Hstop, Hr.
Qed.

Lemma extract_links_total base_url html :
  (forall base_url href, urljoin base_url href <> None) ->
  extract_links cfg base_url html <> None.
Proof.
  intros Htotal. unfold extract_links.
  assert (Hgen : forall hrefs links,
            fold_left
              (fun acc a_href =>
                 match acc with
                 | None => None
                 | Some links => link_step cfg base_url links a_href
                 end) hrefs (Some links) <> None).
  { induction hrefs as [|a hrefs IH]; intros links; simpl; [done|].
    unfold link_step at 2.
    destruct (negb (nonempty (strip a)) || startswith (strip a) (py "#")
              || startswith (lower (strip a)) (py "javascript:"));
      [apply IH|].
    destruct (urljoin base_url (strip a)) as [abs_url|] eqn:E;
      [|by apply Htotal in E].
    destruct (is_allowed_url cfg abs_url); apply IH. }
  apply Hgen.
Qed.

Lemma never_raised_step :
  (forall base_url href, urljoin base_url href <> None) ->
  forall st st', raised st = false -> loop_step cfg st = Some st' ->
                 raised st' = false.
Proof.
  intros Htotal st st' Hr Hstep.
  apply loop_step_inv in Hstep as (u & d & q' & Hq & Hlt & ->).
  unfold loop_body. case_bool_decide; [done|].
  destruct (d >? MAX_DEPTH cfg); [done|].
  destruct (negb (is_allowed_url cfg u)); [done|].
  destruct (fetch_html (world st) (log st) u) as [[w' log'] [html|]];
    [|done].
  unfold extract_main_text.
  destruct (negb (nonempty (clean_lines (soup_main_text html)))); [done|].
  destruct (extract_links cfg u html) eqn:E; [done|].
  by apply extract_links_total in E.
Qed.

(** *** What is fetched *)

Definition fetched_allowed (st : State World) : Prop :=
  forall u, In (FETCH u) (log st) -> is_allowed_url cfg u = true.

Lemma fetched_allowed_step st st' :
  fetched_allowed st -> loop_step cfg st = Some st' -> fetched_allowed st'.
Proof.
  intros Hf Hstep.
  apply loop_step_inv in Hstep as (u & d & q' & Hq & Hlt & ->).
  unfold loop_body. case_bool_decide; [done|].
  destruct (d >? MAX_DEPTH cfg); [done|].
  destruct (is_allowed_url cfg u) eqn:Ha; simpl negb; cbv iota.
  2:{ intros x Hx. simpl in Hx.
      apply in_app_or in Hx as [Hx | [[=] | []]]. by apply Hf. }
  unfold fetch_html.
  assert (Hlog : forall x, In (FETCH x) (log st ++ [FETCH u]) ->
                   is_allowed_url cfg x = true).
  { intros x [Hx | [[= <-] | []]]%in_app_or; [by apply Hf | done]. }
  destruct (requests_get (world st) u) as [w' [res|]].
  - destruct (negb (status_code res =? 200)).
    + intros x Hx. simpl in Hx.
      apply in_app_or in Hx as [Hx | [[=] | []]]. by apply Hlog.
    + unfold extract_main_text.
      destruct (negb (nonempty (clean_lines (soup_main_text (res_text res)))));
        [|destruct (extract_links cfg u (res_text res))];
        intros x Hx; simpl in Hx;
        apply in_app_or in Hx as [Hx | [[=] | []]]; by apply Hlog.
  - intros x Hx. simpl in Hx.
    apply in_app_or in Hx as [Hx | [[=] | []]]. by apply Hlog.
Qed.

Lemma init_unique w : unique_urls (init_state cfg w).
Proof. split; [constructor | by intros r []]. Qed.

Lemma init_counted w : counted (init_state cfg w).
Proof. split; simpl; lia. Qed.

Lemma init_shallow w : shallow (init_state cfg w).
Proof. by intros r []. Qed.

Lemma init_fetched_allowed w : fetched_allowed (init_state cfg w).
Proof.
  intros u Hu. simpl in Hu. apply in_map_iff in Hu as (x & [=] & _).
Qed.


End Facts.

(** C4.  At every moment of a run the output holds at most one record per
    URL: the URLs of the records written so far are pairwise distinct. *)
Theorem crawl_unique_urls {U : Unicode} {World : Type} {W : Web World}
    (cfg : Config) (w : World) (n : nat) :
  NoDup (map url (out (run cfg n (init_state cfg w)))).
Proof.
  apply (run_invariant cfg (unique_urls (World := World))).
  - apply unique_urls_step.
  - apply init_unique.
Qed.

(** C5.  For a maximum page count that is a count (not negative), the
    accepted-page counter is the number of records written and never
    exceeds the maximum, at every moment of a run. *)
Theorem crawl_page_count_bounded {U : Unicode} {World : Type} {W : Web World}
    (cfg : Config) (w : World) (n : nat) :
  0 <= MAX_PAGES cfg ->
  page_count (run cfg n (init_state cfg w))
    = Z.of_nat (length (out (run cfg n (init_state cfg w))))
  /\ page_count (run cfg n (init_state cfg w)) <= MAX_PAGES cfg.
Proof.
  intros Hmax.
  destruct (run_invariant cfg (counted cfg) (counted_step cfg) n
              (init_state cfg w) (init_counted cfg w)) as [Hlen Hle].
  split; [done | lia].
Qed.

Lemma crawl_page_count_bounded_witness :
  0 <= MAX_PAGES source_config
  /\ (page_count (@run lower_ascii unit (UrlLib.site_web []) source_config 5
                    (init_state source_config tt))
      = Z.of_nat (length (out (@run lower_ascii unit (UrlLib.site_web [])
                                 source_config 5
                                 (init_state source_config tt))))
      /\ page_count (@run lower_ascii unit (UrlLib.site_web [])
                       source_config 5 (init_state source_config tt))
         <= MAX_PAGES source_config).
Proof.
  split; [simpl; lia|].
  apply (@crawl_page_count_bounded lower_ascii unit (UrlLib.site_web [])
           source_config tt 5).
  simpl; lia.
Defined.

(** C6.  At every moment of a run, every record written has a depth of at
    most the configured maximum depth. *)
Theorem crawl_depth_bounded {U : Unicode} {World : Type} {W : Web World}
    (cfg : Config) (w : World) (n : nat) :
  Forall (fun r => depth r <= MAX_DEPTH cfg)
         (out (run cfg n (init_state cfg w))).
Proof.
  apply List.Forall_forall.
  apply (run_invariant cfg (shallow cfg (World := World))).
  - apply shallow_step.
  - apply init_shallow.
Qed.

(** The loop always comes to an end: either [crawl] returns, from some
    amount of fuel on, one and the same final state whose last message
    reports the number of records written, or an exception has left it. *)
Lemma crawl_returns_or_raises {U : Unicode} {World : Type} {W : Web World}
    (cfg : Config) (w : World) :
  exists fuel,
    (exists st,
       (forall k, crawl cfg (fuel + k) w = Some st)
       /\ log st = log (run cfg fuel (init_state cfg w))
                     ++ [DONE (Z.of_nat (length (out st)))])
    \/ (forall k, crawl cfg (fuel + k) w = None
                  /\ crawl_raises cfg (fuel + k) w
                     = Some (run cfg fuel (init_state cfg w))).
Proof.
  destruct (loop_terminates cfg (init_state cfg w)) as [fuel Hstop].
  pose proof (run_invariant cfg (counted cfg) (counted_step cfg) fuel
                (init_state cfg w) (init_counted cfg w)) as [Hlen _].
  exists fuel.
  destruct (raised (run cfg fuel (init_state cfg w))) eqn:Er.
  - right. intros k. split.
    + by apply crawl_raised_none.
    + unfold crawl_raises. by rewrite (run_stable cfg fuel _ k Hstop), Er.
  - left. eexists. split.
    + intros k. unfold crawl. rewrite (run_stable cfg fuel _ k Hstop).
      rewrite Hstop, Er. reflexivity.
    + simpl. by rewrite Hlen.
Qed.

(** When [urljoin] raises on no link, no exception leaves the loop and
    [crawl] returns. *)
Lemma crawl_returns_without_raise {U : Unicode} {World : Type}
    {W : Web World} (cfg : Config) (w : World) :
  (forall base_url href, urljoin base_url href <> None) ->
  exists fuel st,
    (forall k, crawl cfg (fuel + k) w = Some st)
    /\ log st = log (run cfg fuel (init_state cfg w))
                  ++ [DONE (Z.of_nat (length (out st)))].
Proof.
  intros Htotal.
  destruct (crawl_returns_or_raises cfg w) as [fuel [(st & H) | H]].
  - by exists fuel, st.
  - destruct (H 0%nat) as [_ Hr]. unfold crawl_raises in Hr.
    rewrite Nat.add_0_r in Hr.
    rewrite (run_invariant cfg (fun st => raised st = false)
               (never_raised_step cfg Htotal) fuel (init_state cfg w)
               eq_refl) in Hr.
    done.
Qed.

(** Nothing is fetched that the filter has not accepted, seed or not. *)
Lemma fetch_only_allowed {U : Unicode} {World : Type} {W : Web World}
    (cfg : Config) (w : World) (n : nat) (u : str) :
  In (FETCH u) (log (run cfg n (init_state cfg w))) ->
  is_allowed_url cfg u = true.
Proof.
  revert u. apply (run_invariant cfg (fetched_allowed cfg (World := World))).
  - apply fetched_allowed_step.
  - apply init_fetched_allowed.
Qed.

(** C1.  The seed is put in the queue unfiltered, but the loop applies the
    filter to it when it is taken out: a seed outside the allowed domain is
    skipped as not allowed and never fetched, although its page exists;
    with its domain allowed the same seed is fetched and saved. *)
Theorem seed_outside_domain_skipped :
  let seed := py "https://example.com/" in
  let site := [(seed, {| UrlLib.page_status := 200;
                         UrlLib.page_title := py "Example";
                         UrlLib.page_text := py "Example Domain";
                         UrlLib.page_hrefs := [] |})] in
  let config domain := {| START_URLS := [seed]; ALLOWED_DOMAIN := domain;
                          MAX_PAGES := 100; MAX_DEPTH := 3 |} in
  option_map (fun st => (log st, map url (out st)))
    (@crawl lower_ascii unit (UrlLib.site_web site)
            (config (py "ogya-h.gne.go.kr")) 1 tt)
  = Some ([SEED seed; SKIP_not_allowed seed; DONE 0], [])
  /\ option_map (fun st => (log st, map url (out st)))
       (@crawl lower_ascii unit (UrlLib.site_web site)
               (config (py "example.com")) 1 tt)
     = Some ([SEED seed; FETCH seed; SAVE seed 0 1; DONE 1], [seed]).
Proof. split; vm_compute; reflexivity. Qed.

(** *** The scenarios of the specification, run on the model *)

Definition page_200 (body : string) (hrefs : list str) : UrlLib.Page :=
  {| UrlLib.page_status := 200; UrlLib.page_title := py "title";
     UrlLib.page_text := py body; UrlLib.page_hrefs := hrefs |}.

(** Page a links to b (in the domain), to c (outside) and to a PDF: a and b
    are saved, c and the PDF are never fetched. *)
Example scenario_links :
  let a := py "https://x.org/a" in
  let b := py "https://x.org/b" in
  let c := py "https://other.org/c" in
  let pdf := py "https://x.org/doc.pdf" in
  let site := [ (a, page_200 "first page" [b; c; pdf]);
                (b, page_200 "second page" []);
                (c, page_200 "third page" []);
                (pdf, page_200 "a document" []) ] in
  let cfg := {| START_URLS := [a]; ALLOWED_DOMAIN := py "x.org";
                MAX_PAGES := 10; MAX_DEPTH := 1 |} in
  option_map (fun st => (log st, map (fun r => (url r, depth r)) (out st)))
    (@crawl lower_ascii unit (UrlLib.site_web site) cfg 2 tt)
  = Some ([SEED a; FETCH a; SAVE a 0 1; FETCH b; SAVE b 1 2; DONE 2],
          [(a, 0); (b, 1)]).
Proof. vm_compute. reflexivity. Qed.

(** A page that answers 404 gives no record and the run goes on with the
    next task. *)
Example scenario_404 :
  let a := py "https://x.org/a" in
  let b := py "https://x.org/b" in
  let site := [ (a, {| UrlLib.page_status := 404;
                       UrlLib.page_title := py "Not Found";
                       UrlLib.page_text := py "no such page";
                       UrlLib.page_hrefs := [] |});
                (b, page_200 "second page" []) ] in
  let cfg := {| START_URLS := [a; b]; ALLOWED_DOMAIN := py "x.org";
                MAX_PAGES := 10; MAX_DEPTH := 1 |} in
  option_map (fun st => (log st, map url (out st)))
    (@crawl lower_ascii unit (UrlLib.site_web site) cfg 2 tt)
  = Some ([SEED a; SEED b; FETCH a; HTTP_skip 404; FETCH b; SAVE b 0 1;
           DONE 1], [b]).
Proof. vm_compute. reflexivity. Qed.

(** C8.  A link that [urljoin] cannot resolve aborts the run: page a is
    fetched, saved and counted, then the exception of [urljoin] on its
    link [//[] leaves [extract_links] and [crawl]; the seed b, still in the
    queue, is never fetched, and [crawl] never returns nor reports its
    count, whatever the fuel. *)
Theorem malformed_link_aborts :
  let a := py "https://x.org/a" in
  let b := py "https://x.org/b" in
  let site := [ (a, page_200 "first page" [py "//["]);
                (b, page_200 "second page" []) ] in
  let cfg := {| START_URLS := [a; b]; ALLOWED_DOMAIN := py "x.org";
                MAX_PAGES := 10; MAX_DEPTH := 3 |} in
  UrlLib.urljoin_absolute a (py "//[") = None
  /\ (forall fuel,
        @crawl lower_ascii unit (UrlLib.site_web site) cfg fuel tt = None)
  /\ option_map (fun st => (log st, map url (out st), queue st))
       (@crawl_raises lower_ascii unit (UrlLib.site_web site) cfg 1 tt)
     = Some ([SEED a; SEED b; FETCH a; SAVE a 0 1], [a], [(b, 0)]).
Proof.
  intros a b site cfg.
  split; [vm_compute; reflexivity|].
  split; [|vm_compute; reflexivity].
  intros [|k]; [vm_compute; reflexivity|].
  apply (crawl_raised_none cfg tt 1). vm_compute. reflexivity.
Qed.

End CrawlLoop.

(** ** The /ask endpoint *)

Module AskFacts.

Import Main PyStrFacts.

Section Facts.
Context {U : Unicode} (STAFF_DB : StaffDb) (SCHOOL_KNOWLEDGE : str).

Lemma first_return_none {A B} (body : A -> option B) l :
  (forall x, In x l -> body x = None) -> first_return body l = None.
Proof.
  induction l as [|x l IH]; intros H; simpl; [done|].
  rewrite (H x) by (by left). apply IH. intros y Hy. apply H. by right.
Qed.

Lemma first_return_find {A B} (p : A -> bool) (f : A -> B) l :
  first_return (fun x => if p x then Some (f x) else None) l
  = option_map f (List.find p l).
Proof.
  induction l as [|x l IH]; simpl; [done|]. by destruct (p x).
Qed.

(** The homeroom rule of [answer_from_staff_db]: a question that names no
    teacher or subject teacher, names a homeroom and matches one of the
    two patterns is answered from the teachers' homeroom codes. *)
Lemma answer_homeroom question grade cls :
  contains (py "교사") (strip question)
    || contains (py "선생") (strip question) = false ->
  contains (py "담임") (strip question) = true ->
  match re_search re_grade_class (strip question) with
  | Some g => Some g
  | None => re_search re_grade_dash_class (strip question)
  end = Some [grade; cls] ->
  answer_from_staff_db STAFF_DB question
  = Some match List.find (fun t => opt_eqb (homeroom t)
                                     ([grade] ++ py "-" ++ [cls]))
                         (teachers STAFF_DB) with
         | Some t => [grade] ++ py "학년 " ++ [cls] ++ py "반 담임은 "
                       ++ name t ++ py " 선생님입니다."
         | None => [grade] ++ py "학년 " ++ [cls]
                     ++ py "반 담임 정보는 데이터에 없습니다."
         end.
Proof.
  intros Hsubj Hhome Hre. unfold answer_from_staff_db.
  rewrite first_return_none.
  - rewrite Hre, Hhome.
    rewrite (first_return_find
               (fun t => opt_eqb (homeroom t) ([grade] ++ py "-" ++ [cls]))
               (fun t => [grade] ++ py "학년 " ++ [cls] ++ py "반 담임은 "
                           ++ name t ++ py " 선생님입니다.")).
    by destruct (List.find _ (teachers STAFF_DB)).
  - intros [keyword subject] _. by rewrite Hsubj, andb_false_r.
Qed.

End Facts.

(** C9.  The question "1학년 3반 담임" is answered from the staff directory
    alone: with the first teacher whose homeroom code is "1-3" when there
    is one, with the not-in-the-data sentence otherwise; the only
    collaborator called is the directory lookup, never the model server. *)
Theorem homeroom_question_answered {U : Unicode} (STAFF_DB : StaffDb)
    (SCHOOL_KNOWLEDGE : str) (post : str -> str -> post_result) :
  ask_ai STAFF_DB SCHOOL_KNOWLEDGE post {| question := py "1학년 3반 담임" |}
  = ([Call_answer_from_staff_db (py "1학년 3반 담임")],
     Answer
       match List.find (fun t => opt_eqb (homeroom t) (py "1-3"))
                       (teachers STAFF_DB) with
       | Some t => py "1학년 3반 담임은 " ++ name t ++ py " 선생님입니다."
       | None => py "1학년 3반 담임 정보는 데이터에 없습니다."
       end).
Proof.
  unfold ask_ai.
  change (strip (question {| question := py "1학년 3반 담임" |}))
    with (py "1학년 3반 담임").
  change (negb (nonempty (py "1학년 3반 담임"))) with false. cbv iota.
  rewrite (answer_homeroom STAFF_DB (py "1학년 3반 담임") 49%N 51%N)
    by (vm_compute; reflexivity).
  vm_compute. reflexivity.
Qed.

(** C10.  A question that is empty once trimmed is refused with status 400
    and no collaborator is called. *)
Theorem blank_question_refused {U : Unicode} (STAFF_DB : StaffDb)
    (SCHOOL_KNOWLEDGE : str) (post : str -> str -> post_result)
    (payload : Question) :
  strip (question payload) = [] ->
  ask_ai STAFF_DB SCHOOL_KNOWLEDGE post payload
  = ([], HTTPException 400 (py "question 필드가 비어 있습니다.")).
Proof. intros H. unfold ask_ai. by rewrite H. Qed.

Lemma blank_question_refused_witness :
  strip (question {| question := py "   " |}) = []
  /\ @ask_ai lower_ascii {| teachers := []; staff := [] |} []
       (fun _ _ => PostRaised []) {| question := py "   " |}
     = ([], HTTPException 400 (py "question 필드가 비어 있습니다.")).
Proof.
  split; [reflexivity|].
  apply (@blank_question_refused lower_ascii). reflexivity.
Defined.

End AskFacts.

(** ** The shape of cleaned text *)

Module CleanShape.

Import Crawler PyStrFacts CleanLines.

Section Facts.
Context {U : Unicode}.

(** The lines the loop of [clean_lines] keeps. *)
Definition kept (text : str) : list str :=
  fold_left clean_step (map strip (splitlines text)) [].

Lemma clean_lines_kept text :
  clean_lines text
  = match kept text with [] => strip text | _ :: _ => join [LF] (kept text) end.
Proof. reflexivity. Qed.

Lemma fold_clean_sublist lines : forall acc,
  exists ks, fold_left clean_step lines acc = acc ++ ks
             /\ sublist ks lines
             /\ Forall (fun k => is_noise k = false) ks.
Proof.
  induction lines as [|l lines IH]; intros acc; simpl.
  - exists []. by rewrite app_nil_r.
  - destruct (IH (clean_step acc l)) as (ks & -> & Hsub & Hn).
    destruct (clean_step_cases acc l) as [-> | [Hl ->]].
    + exists ks. split; [done|]. split; [by constructor | done].
    + exists (l :: ks). rewrite <- app_assoc. split; [done|].
      split; [by constructor | by constructor].
Qed.

Lemma fold_clean_distinct lines : forall acc,
  Sorted (fun a b : str => a <> b) acc ->
  Sorted (fun a b : str => a <> b) (fold_left clean_step lines acc).
Proof.
  induction lines as [|l lines IH]; intros acc Hacc; simpl; [done|].
  apply IH. unfold clean_step. destruct (is_noise l); [done|].
  destruct acc as [|a acc] using rev_ind; simpl.
  - repeat constructor.
  - rewrite last_last.
    destruct (nonempty_list (acc ++ [a]) && str_eqb a l) eqn:E; [done|].
    apply Sorted_snoc; [done|]. constructor.
    apply andb_false_iff in E as [E|E].
    + by destruct acc.
    + intros <-. unfold str_eqb in E. by rewrite bool_decide_eq_false in E.
Qed.

Lemma fold_clean_nil_iff lines :
  fold_left clean_step lines [] = []
  <-> Forall (fun l => is_noise l = true) lines.
Proof.
  split.
  - induction lines as [|l lines IH]; intros H; [constructor|]. simpl in H.
    destruct (fold_clean_sublist lines (clean_step [] l)) as (ks & E & _).
    rewrite E in H. apply app_eq_nil in H as [H ->].
    rewrite app_nil_r in E. constructor.
    + unfold clean_step in H. by destruct (is_noise l).
    + apply IH. by rewrite <- H, E.
  - induction 1 as [|l lines Hl _ IH]; simpl; [done|].
    unfold clean_step at 2. by rewrite Hl.
Qed.

Lemma kept_nil_iff text :
  kept text = []
  <-> Forall (fun l => is_noise (strip l) = true) (splitlines text).
Proof. unfold kept. by rewrite fold_clean_nil_iff, List.Forall_map. Qed.

Lemma lstrip_length s : (length (lstrip s) <= length s)%nat.
Proof.
  induction s as [|c s IH]; simpl; [done|].
  destruct (isspace c); simpl; lia.
Qed.

Lemma trimmed_lstrip k : strip k = k -> lstrip k = k.
Proof. intros E. rewrite <- E at 1. unfold strip.
  by rewrite strip_comm, lstrip_idem, <- strip_comm. Qed.

Lemma trimmed_rstrip k : strip k = k -> rstrip k = k.
Proof. intros E. rewrite <- E at 1. unfold strip. by rewrite rstrip_idem. Qed.

Lemma lstrip_app_trimmed k s : lstrip k = k -> k <> [] -> lstrip (k ++ s) = k ++ s.
Proof.
  destruct k as [|c k]; [done|]. intros E _. simpl in *.
  destruct (isspace c); [|done].
  pose proof (lstrip_length k) as H. rewrite E in H. simpl in H. lia.
Qed.

Lemma rstrip_app_trimmed s k : rstrip k <> [] -> rstrip (s ++ k) = s ++ rstrip k.
Proof.
  intros Hk. induction s as [|c s IH]; simpl; [done|]. rewrite IH.
  destruct (s ++ rstrip k) eqn:E; [|done].
  by apply app_eq_nil in E as [_ ?].
Qed.

Lemma join_trimmed ks :
  ks <> [] -> Forall (fun k => strip k = k /\ k <> []) ks ->
  strip (join [LF] ks) = join [LF] ks.
Proof.
  intros Hne Hks.
  assert (Hl : lstrip (join [LF] ks) = join [LF] ks).
  { destruct Hks as [|k ks [Hk Hk'] _]; [done|].
    destruct ks; [by apply trimmed_lstrip|].
    rewrite join_cons_cons. apply lstrip_app_trimmed; [|done].
    by apply trimmed_lstrip. }
  assert (Hr : rstrip (join [LF] ks) = join [LF] ks).
  { clear Hl. induction Hks as [|k ks [Hk Hk'] Hks IH]; [done|].
    destruct ks as [|k' ks]; [by apply trimmed_rstrip|].
    rewrite join_cons_cons.
    assert (Hj : rstrip (join [LF] (k' :: ks)) = join [LF] (k' :: ks))
      by (by apply IH).
    assert (Hjn : join [LF] (k' :: ks) <> []).
    { apply join_not_nil. by inversion Hks as [|? ? [_ ?] _]. }
    rewrite (app_assoc k [LF]).
    rewrite rstrip_app_trimmed by (by rewrite Hj). by rewrite Hj. }
  unfold strip. by rewrite Hl, Hr.
Qed.

(** The helper behind idempotence, for use in other proofs. *)
Lemma clean_lines_fixed text : clean_lines (clean_lines text) = clean_lines text.
Proof.
  rewrite (clean_lines_kept text).
  destruct (kept text) as [|k ks] eqn:EK.
  - unfold clean_lines.
    rewrite (kept_content_lines (strip text)), content_lines_strip,
      <- kept_content_lines. fold (kept text). rewrite EK. apply strip_idem.
  - assert (Hshape : forall x, In x (k :: ks) ->
                       break_free x /\ x <> [] /\ strip x = x)
      by (intros x Hx; apply (kept_lines_shape text); fold (kept text);
          by rewrite EK).
    assert (Hfix : fold_left clean_step (k :: ks) [] = k :: ks)
      by (rewrite <- EK; by apply fold_clean_fixed).
    unfold clean_lines. rewrite splitlines_join.
    + replace (map strip (k :: ks)) with (k :: ks); [by rewrite Hfix|].
      symmetry. rewrite <- (map_id (k :: ks)) at 2.
      apply map_ext_in. intros x Hx. by apply Hshape.
    + apply List.Forall_forall. intros x Hx.
      destruct (Hshape x Hx) as (? & ? & ?). done.
Qed.

End Facts.

(** X1.  The result of [clean_lines] has no whitespace at either end. *)
Theorem clean_lines_trimmed {U : Unicode} (text : str) :
  strip (clean_lines text) = clean_lines text.
Proof.
  rewrite clean_lines_kept. destruct (kept text) as [|k ks] eqn:EK.
  - apply strip_idem.
  - apply join_trimmed; [done|]. apply List.Forall_forall. intros x Hx.
    destruct (kept_lines_shape text x) as (_ & ? & ?); [|done].
    fold (kept text). by rewrite EK.
Qed.

(** X2.  When some line of the input survives the noise tests, the lines of
    the result are a subsequence of the trimmed input lines, none of them is
    noise, and no two neighbours are equal. *)
Theorem clean_lines_kept_lines {U : Unicode} (text : str) :
  Exists (fun l => is_noise (strip l) = false) (splitlines text) ->
  splitlines (clean_lines text) <> []
  /\ sublist (splitlines (clean_lines text)) (map strip (splitlines text))
  /\ Forall (fun k => is_noise k = false) (splitlines (clean_lines text))
  /\ Sorted (fun a b : str => a <> b) (splitlines (clean_lines text)).
Proof.
  intros Hex. rewrite clean_lines_kept.
  destruct (kept text) as [|k ks] eqn:EK.
  { apply kept_nil_iff in EK. apply List.Exists_exists in Hex as (l & Hl & Hn).
    rewrite List.Forall_forall in EK. rewrite (EK l Hl) in Hn. done. }
  rewrite splitlines_join.
  - rewrite <- EK. unfold kept.
    destruct (fold_clean_sublist (map strip (splitlines text)) [])
      as (ks' & E & Hsub & Hn).
    simpl in E. fold (kept text) in E |- *. rewrite EK in *.
    split; [done|]. rewrite E. split; [done|]. split; [done|].
    rewrite <- E, <- EK. apply fold_clean_distinct. constructor.
  - apply List.Forall_forall. intros x Hx.
    destruct (kept_lines_shape text x) as (? & ? & _); [|done].
    fold (kept text). by rewrite EK.
Qed.

Lemma clean_lines_kept_lines_witness :
  let text := [97; 98; 10; 67; 111; 112; 121; 114; 105; 103; 104; 116; 32;
               50; 48; 50; 48; 10; 104; 101; 108; 108; 111; 10; 104; 101;
               108; 108; 111; 10; 32; 32; 119; 111; 114; 108; 100; 32]%N in
  Exists (fun l => @is_noise lower_ascii (strip l) = false) (splitlines text)
  /\ splitlines (@clean_lines lower_ascii text) = [py "hello"; py "world"]
  /\ Sorted (fun a b : str => a <> b)
            (splitlines (@clean_lines lower_ascii text)).
Proof.
  intros text.
  assert (H : Exists (fun l => @is_noise lower_ascii (strip l) = false)
                     (splitlines text))
    by (apply List.Exists_exists; exists (py "hello"); split;
        [vm_compute; tauto | reflexivity]).
  split; [exact H|]. split; [reflexivity|].
  apply (@clean_lines_kept_lines lower_ascii text H).
Defined.

(** X3.  When every line of the input is noise, the result is the trimmed
    input itself, noise included. *)
Theorem clean_lines_fallback {U : Unicode} (text : str) :
  Forall (fun l => is_noise (strip l) = true) (splitlines text) ->
  clean_lines text = strip text.
Proof.
  intros H. apply kept_nil_iff in H. by rewrite clean_lines_kept, H.
Qed.

Lemma clean_lines_fallback_witness :
  Forall (fun l => @is_noise lower_ascii (strip l) = true)
         (splitlines [32; 97; 98; 10; 97; 98; 10]%N)
  /\ @clean_lines lower_ascii [32; 97; 98; 10; 97; 98; 10]%N
     = [97; 98; 10; 97; 98]%N.
Proof.
  assert (H : Forall (fun l => @is_noise lower_ascii (strip l) = true)
                     (splitlines [32; 97; 98; 10; 97; 98; 10]%N))
    by (repeat constructor).
  split; [exact H|].
  apply (@clean_lines_fallback lower_ascii _ H).
Defined.

End CleanShape.

(** ** The crawl loop, case by case *)

Module CrawlCases.

Import Crawler PyStrFacts CrawlLoop.

Section Facts.
Context {U : Unicode} {World : Type} {W : Web World} (cfg : Config).

(** The links a saving turn puts in the queue. *)
Definition new_tasks (visited' : gset str) (depth : Z) (links : list str)
  : list (str * Z) :=
  map (fun link => (link, depth + 1))
      (List.filter (fun link => negb (bool_decide (link ∈ visited'))) links).

Lemma enqueue_links (visited' : gset str) depth links : forall q,
  fold_left (fun q link =>
               if bool_decide (link ∈ visited') then q
               else q ++ [(link, depth + 1)]) links q
  = q ++ new_tasks visited' depth links.
Proof.
  unfold new_tasks.
  induction links as [|l links IH]; intros q; simpl.
  - by rewrite app_nil_r.
  - rewrite IH. destruct (bool_decide (l ∈ visited')); simpl; [done|].
    by rewrite <- app_assoc.
Qed.

(** The record a saving turn writes for the markup [html]. *)
Definition record_of (url : str) (depth : Z) (html : str) : PageRecord :=
  {| url := url; title := soup_title html; depth := depth;
     text := clean_lines (soup_main_text html);
     hash := md5_hexdigest (clean_lines (soup_main_text html)) |}.

(** All the ways a turn of the loop can go. *)
Inductive outcome (st : State World) (url : str) (depth : Z)
                  (queue' : list (str * Z)) (st' : State World) : Prop :=
| revisit :
    url ∈ visited st ->
    visited st' = visited st -> queue st' = queue' ->
    page_count st' = page_count st -> out st' = out st ->
    log st' = log st -> world st' = world st ->
    outcome st url depth queue' st'
| too_deep :
    url ∉ visited st -> MAX_DEPTH cfg < depth ->
    visited st' = {[url]} ∪ visited st -> queue st' = queue' ->
    page_count st' = page_count st -> out st' = out st ->
    log st' = log st -> world st' = world st ->
    outcome st url depth queue' st'
| not_allowed :
    url ∉ visited st -> depth <= MAX_DEPTH cfg ->
    is_allowed_url cfg url = false ->
    visited st' = {[url]} ∪ visited st -> queue st' = queue' ->
    page_count st' = page_count st -> out st' = out st ->
    log st' = log st ++ [SKIP_not_allowed url] -> world st' = world st ->
    outcome st url depth queue' st'
| fetch_failed e :
    url ∉ visited st -> depth <= MAX_DEPTH cfg ->
    is_allowed_url cfg url = true ->
    match snd (requests_get (world st) url) with
    | None => e = FETCH_ERROR
    | Some res => status_code res <> 200 /\ e = HTTP_skip (status_code res)
    end ->
    visited st' = {[url]} ∪ visited st -> queue st' = queue' ->
    page_count st' = page_count st -> out st' = out st ->
    log st' = log st ++ [FETCH url; e] ->
    world st' = fst (requests_get (world st) url) ->
    outcome st url depth queue' st'
| empty_text html :
    url ∉ visited st -> depth <= MAX_DEPTH cfg ->
    is_allowed_url cfg url = true ->
    snd (requests_get (world st) url)
      = Some {| status_code := 200; res_text := html |} ->
    clean_lines (soup_main_text html) = [] ->
    visited st' = {[url]} ∪ visited st -> queue st' = queue' ->
    page_count st' = page_count st -> out st' = out st ->
    log st' = log st ++ [FETCH url; SKIP_empty_text url] ->
    world st' = fst (requests_get (world st) url) ->
    outcome st url depth queue' st'
| saved html links :
    url ∉ visited st -> depth <= MAX_DEPTH cfg ->
    is_allowed_url cfg url = true ->
    snd (requests_get (world st) url)
      = Some {| status_code := 200; res_text := html |} ->
    clean_lines (soup_main_text html) <> [] ->
    extract_links cfg url html = Some links ->
    visited st' = {[url]} ∪ visited st ->
    queue st' = queue' ++ new_tasks ({[url]} ∪ visited st) depth links ->
    page_count st' = page_count st + 1 ->
    out st' = out st ++ [record_of url depth html] ->
    log st' = log st ++ [FETCH url; SAVE url depth (page_count st + 1)] ->
    world st' = fst (requests_get (world st) url) ->
    raised st' = raised st ->
    outcome st url depth queue' st'
| saved_then_raised html :
    url ∉ visited st -> depth <= MAX_DEPTH cfg ->
    is_allowed_url cfg url = true ->
    snd (requests_get (world st) url)
      = Some {| status_code := 200; res_text := html |} ->
    clean_lines (soup_main_text html) <> [] ->
    extract_links cfg url html = None ->
    visited st' = {[url]} ∪ visited st -> queue st' = queue' ->
    page_count st' = page_count st + 1 ->
    out st' = out st ++ [record_of url depth html] ->
    log st' = log st ++ [FETCH url; SAVE url depth (page_count st + 1)] ->
    world st' = fst (requests_get (world st) url) ->
    raised st' = true ->
    outcome st url depth queue' st'.

Lemma loop_body_outcome st url depth queue' :
  outcome st url depth queue' (loop_body cfg st url depth queue').
Proof.
  unfold loop_body. case_bool_decide as Hvis.
  { by apply revisit. }
  destruct (Z.gtb_spec depth (MAX_DEPTH cfg)) as [Hd|Hd].
  { by apply too_deep. }
  destruct (is_allowed_url cfg url) eqn:Ha; simpl negb; cbv iota.
  2:{ by apply not_allowed. }
  unfold fetch_html.
  destruct (requests_get (world st) url) as [w' [[status html]|]] eqn:Eget;
    simpl status_code.
  2:{ apply (fetch_failed _ _ _ _ _ FETCH_ERROR); rewrite ?Eget; simpl;
        try done. by rewrite <- app_assoc. }
  destruct (Z.eqb_spec status 200) as [->|Hs]; simpl negb; cbv iota.
  2:{ apply (fetch_failed _ _ _ _ _ (HTTP_skip status)); rewrite ?Eget; simpl;
        try done. by rewrite <- app_assoc. }
  unfold extract_main_text. simpl res_text.
  destruct (clean_lines (soup_main_text html)) as [|c t] eqn:Et; simpl negb;
    cbv iota.
  - apply (empty_text _ _ _ _ _ html); rewrite ?Eget; simpl; try done.
    by rewrite <- app_assoc.
  - destruct (extract_links cfg url html) as [links|] eqn:El.
    + apply (saved _ _ _ _ _ html links); rewrite ?Eget; simpl; try done.
      * by rewrite Et.
      * apply enqueue_links.
      * unfold record_of, text_hash. by rewrite Et.
      * by rewrite <- app_assoc.
    + apply (saved_then_raised _ _ _ _ _ html); rewrite ?Eget; simpl;
        try done.
      * by rewrite Et.
      * unfold record_of, text_hash. by rewrite Et.
      * by rewrite <- app_assoc.
Qed.

Lemma loop_step_outcome st st' :
  loop_step cfg st = Some st' ->
  exists url depth queue',
    queue st = (url, depth) :: queue'
    /\ page_count st < MAX_PAGES cfg
    /\ outcome st url depth queue' st'.
Proof.
  intros H. apply loop_step_inv in H as (u & d & q' & Hq & Hlt & ->).
  exists u, d, q'. split; [done|]. split; [done|]. apply loop_body_outcome.
Qed.

(** *** extract_links *)

Lemma extract_links_allowed base_url html :
  match extract_links cfg base_url html with
  | Some links =>
    Forall (fun link =>
              is_allowed_url cfg link = true
              /\ exists a_href,
                   In a_href (soup_hrefs html)
                   /\ urljoin base_url (strip a_href) = Some link
                   /\ strip a_href <> []
                   /\ startswith (strip a_href) (py "#") = false
                   /\ startswith (lower (strip a_href)) (py "javascript:")
                      = false)
           links
  | None =>
    exists a_href,
      In a_href (soup_hrefs html)
      /\ urljoin base_url (strip a_href) = None
      /\ strip a_href <> []
      /\ startswith (strip a_href) (py "#") = false
      /\ startswith (lower (strip a_href)) (py "javascript:") = false
  end.
Proof.
  unfold extract_links.
  assert (Hgen : forall hrefs acc (P : str -> Prop) (Q : Prop),
            (forall a link, In a hrefs ->
               urljoin base_url (strip a) = Some link ->
               is_allowed_url cfg link = true ->
               strip a <> [] ->
               startswith (strip a) (py "#") = false ->
               startswith (lower (strip a)) (py "javascript:") = false ->
               P link) ->
            (forall a, In a hrefs ->
               urljoin base_url (strip a) = None ->
               strip a <> [] ->
               startswith (strip a) (py "#") = false ->
               startswith (lower (strip a)) (py "javascript:") = false ->
               Q) ->
            match acc with Some links => Forall P links | None => Q end ->
            match
              fold_left
                (fun acc a_href =>
                   match acc with
                   | None => None
                   | Some links => link_step cfg base_url links a_href
                   end) hrefs acc
            with Some links => Forall P links | None => Q end).
  { induction hrefs as [|a hrefs IH]; intros acc P Q HP HQ Hacc; simpl;
      [done|].
    apply IH;
      [intros; eapply HP; eauto; by right
      |intros; eapply HQ; eauto; by right|].
    destruct acc as [links|]; [|done]. unfold link_step.
    destruct (nonempty (strip a)) eqn:E1; simpl; [|done].
    destruct (startswith (strip a) (py "#")) eqn:E2; simpl; [done|].
    destruct (startswith (lower (strip a)) (py "javascript:")) eqn:E3;
      simpl; [done|].
    assert (Hne : strip a <> []) by (intros E; by rewrite E in E1).
    destruct (urljoin base_url (strip a)) as [abs_url|] eqn:E4.
    - destruct (is_allowed_url cfg abs_url) eqn:E5; [|done].
      apply Forall_app. split; [done|]. constructor; [|constructor].
      apply (HP a); auto. by left.
    - apply (HQ a); auto. by left. }
  apply (Hgen (soup_hrefs html) (Some [])); [| |constructor].
  - intros a link Ha Hjoin Hallowed Hne Hhash Hjs. split; [done|].
    by exists a.
  - intros a Ha Hjoin Hne Hhash Hjs. by exists a.
Qed.

(** *** What the log says was fetched *)

Definition fetched (log : list event) : list str :=
  flat_map (fun e => match e with FETCH u => [u] | _ => [] end) log.

Lemma fetched_app l1 l2 : fetched (l1 ++ l2) = fetched l1 ++ fetched l2.
Proof. apply flat_map_app. Qed.

Definition fetched_once (st : State World) : Prop :=
  NoDup (fetched (log st))
  /\ forall u, In u (fetched (log st)) -> u ∈ visited st.

Lemma fetched_once_step st st' :
  fetched_once st -> loop_step cfg st = Some st' -> fetched_once st'.
Proof.
  intros [Hnd Hvis] Hstep.
  apply loop_step_outcome in Hstep as (u & d & q' & Hq & Hlt & Hout).
  assert (Hnew : u ∉ visited st ->
            NoDup (fetched (log st) ++ [u])
            /\ forall x, In x (fetched (log st) ++ [u]) ->
                         x ∈ {[u]} ∪ visited st).
  { intros Hu. split.
    - apply NoDup_app. split; [done|]. split; [|apply NoDup_singleton].
      intros x Hx Hx'. apply list_elem_of_In in Hx, Hx'.
      destruct Hx' as [<- | []]. by apply Hvis in Hx.
    - intros x [Hx | [<- | []]]%in_app_or.
      + apply elem_of_union_r. by apply Hvis.
      + apply elem_of_union_l. by apply elem_of_singleton. }
  unfold fetched_once.
  destruct Hout as [? Hv ? ? ? Hl ?| ? ? Hv ? ? ? Hl ?| ? ? ? Hv ? ? ? Hl ?
                   | e ? ? ? He Hv ? ? ? Hl ?| html ? ? ? ? ? Hv ? ? ? Hl ?
                   | html links ? ? ? ? ? ? Hv ? ? ? Hl ? ?
                   | html ? ? ? ? ? ? Hv ? ? ? Hl ? ?];
    rewrite Hl, Hv.
  - done.
  - split; [done|]. intros x Hx. apply elem_of_union_r. by apply Hvis.
  - rewrite fetched_app. simpl. rewrite app_nil_r.
    split; [done|]. intros x Hx. apply elem_of_union_r. by apply Hvis.
  - assert (Ee : fetched [FETCH u; e] = [u]).
    { destruct (snd (requests_get (world st) u));
        [destruct He as [_ ->] | subst e]; done. }
    rewrite fetched_app, Ee. by apply Hnew.
  - rewrite fetched_app. by apply Hnew.
  - rewrite fetched_app. by apply Hnew.
  - rewrite fetched_app. by apply Hnew.
Qed.

(** *** What is written and what is queued *)

Definition good_record (r : PageRecord) : Prop :=
  is_allowed_url cfg (url r) = true
  /\ text r <> []
  /\ clean_lines (text r) = text r
  /\ hash r = md5_hexdigest (text r)
  /\ 0 <= depth r <= MAX_DEPTH cfg.

Definition good_task (t : str * Z) : Prop :=
  (snd t = 0 /\ In (fst t) (START_URLS cfg))
  \/ (1 <= snd t <= MAX_DEPTH cfg + 1 /\ is_allowed_url cfg (fst t) = true).

Definition well_formed (st : State World) : Prop :=
  Forall good_record (out st) /\ Forall good_task (queue st).

Lemma good_task_depth t : good_task t -> 0 <= snd t.
Proof. intros [[-> _] | [? _]]; lia. Qed.

Lemma new_tasks_good visited' depth url html links :
  0 <= depth <= MAX_DEPTH cfg ->
  extract_links cfg url html = Some links ->
  Forall good_task (new_tasks visited' depth links).
Proof.
  intros Hd Hlinks. unfold new_tasks. apply List.Forall_forall.
  intros t Ht. apply in_map_iff in Ht as (l & <- & Hl).
  apply filter_In in Hl as [Hl _].
  pose proof (extract_links_allowed url html) as Hall.
  rewrite Hlinks in Hall.
  rewrite List.Forall_forall in Hall. destruct (Hall l Hl) as [Ha _].
  right. simpl. split; [lia | done].
Qed.

Lemma well_formed_step st st' :
  well_formed st -> loop_step cfg st = Some st' -> well_formed st'.
Proof.
  intros [Hout Hqueue] Hstep.
  apply loop_step_outcome in Hstep as (u & d & q' & Hq & Hlt & Hcase).
  rewrite Hq in Hqueue. inversion Hqueue as [|? ? Ht Hq'']; subst.
  apply good_task_depth in Ht. simpl in Ht.
  unfold well_formed.
  assert (Hrecord : forall html,
            is_allowed_url cfg u = true -> d <= MAX_DEPTH cfg ->
            clean_lines (soup_main_text html) <> [] ->
            Forall good_record (out st ++ [record_of u d html])).
  { intros html Ha Hd Hne.
    apply Forall_app. split; [done|]. constructor; [|constructor].
    unfold good_record, record_of. simpl.
    split; [done|]. split; [done|].
    split; [apply CleanShape.clean_lines_fixed|]. split; [done | lia]. }
  destruct Hcase as [? ? Hqu ? Ho ? ?| ? ? ? Hqu ? Ho ? ?
                    | ? ? ? ? Hqu ? Ho ? ?| e ? ? ? ? ? Hqu ? Ho ? ?
                    | html ? ? ? ? ? ? Hqu ? Ho ? ?
                    | html links ? Hd Ha ? Hne Hlinks ? Hqu ? Ho ? ? ?
                    | html ? Hd Ha ? Hne ? ? Hqu ? Ho ? ? ?];
    rewrite Ho, Hqu; try done.
  - split; [by apply Hrecord|].
    apply Forall_app. split; [done|].
    apply (new_tasks_good _ d u html); [lia | done].
  - split; [by apply Hrecord | done].
Qed.

Lemma init_well_formed w : well_formed (init_state cfg w).
Proof.
  split; [constructor|]. simpl. apply List.Forall_forall.
  intros t Ht. apply in_map_iff in Ht as (u & <- & Hu). by left.
Qed.

Lemma init_fetched_once w : fetched_once (init_state cfg w).
Proof.
  assert (H : fetched (map SEED (START_URLS cfg)) = [])
    by (induction (START_URLS cfg); [done | by simpl]).
  unfold fetched_once. simpl. rewrite H. split; [constructor | by intros u []].
Qed.

(** *** Breadth first *)

Definition breadth_first (st : State World) : Prop :=
  StronglySorted Z.le (map depth (out st) ++ map snd (queue st))
  /\ forall x y, x ∈ map snd (queue st) -> y ∈ map snd (queue st) ->
                 y <= x + 1.

Lemma constant_sorted c l :
  Forall (fun z => z = c) l -> StronglySorted Z.le l.
Proof.
  induction 1 as [|z l -> Hl IH]; constructor; [done|].
  apply List.Forall_forall. intros y Hy.
  rewrite List.Forall_forall in Hl. rewrite (Hl y Hy). lia.
Qed.

Lemma new_tasks_depth visited' d links :
  Forall (fun z => z = d + 1) (map snd (new_tasks visited' d links)).
Proof.
  unfold new_tasks. rewrite map_map. simpl.
  apply List.Forall_forall. intros z Hz.
  by apply in_map_iff in Hz as (l & <- & _).
Qed.

Lemma breadth_first_step st st' :
  breadth_first st -> loop_step cfg st = Some st' -> breadth_first st'.
Proof.
  intros [Hsorted Hnear] Hstep.
  apply loop_step_outcome in Hstep as (u & d & q' & Hq & Hlt & Hcase).
  rewrite Hq in Hsorted, Hnear. simpl in Hsorted, Hnear.
  apply StronglySorted_app in Hsorted as (Hcross & Hout & Hqueue).
  pose proof Hqueue as Htasks.
  apply StronglySorted_cons in Hqueue as [Hhead Hqueue].
  rewrite Forall_forall in Hhead.
  assert (Hskip : StronglySorted Z.le (map depth (out st) ++ map snd q')
                  /\ forall x y, x ∈ map snd q' -> y ∈ map snd q' ->
                                 y <= x + 1).
  { split.
    - apply StronglySorted_app_2; [|done|done].
      intros x1 x2 Hx1 Hx2. apply Hcross; [done|].
      by apply list_elem_of_further.
    - intros x y Hx Hy. apply Hnear; by apply list_elem_of_further. }
  assert (Hsave : forall html links,
            StronglySorted Z.le
              (map depth (out st ++ [record_of u d html])
               ++ map snd (q' ++ new_tasks ({[u]} ∪ visited st) d links))
            /\ forall x y,
                 x ∈ map snd (q' ++ new_tasks ({[u]} ∪ visited st) d links) ->
                 y ∈ map snd (q' ++ new_tasks ({[u]} ∪ visited st) d links) ->
                 y <= x + 1).
  { intros html links.
    pose proof (new_tasks_depth ({[u]} ∪ visited st) d links) as Hnew.
    rewrite !map_app. simpl.
    set (N := map snd (new_tasks ({[u]} ∪ visited st) d links)) in *.
    assert (Hrange : forall z, z ∈ map snd q' ++ N -> d <= z <= d + 1).
    { intros z [Hz|Hz]%elem_of_app.
      - split; [by apply Hhead|].
        apply (Hnear d z); [by left | by apply list_elem_of_further].
      - rewrite Forall_forall in Hnew. rewrite (Hnew z Hz). lia. }
    split.
    - replace ((map depth (out st) ++ [d]) ++ map snd q' ++ N)
        with ((map depth (out st) ++ d :: map snd q') ++ N)
        by (by rewrite <- !app_assoc).
      apply StronglySorted_app_2.
      + intros x1 x2 Hx1 Hx2.
        rewrite Forall_forall in Hnew. rewrite (Hnew x2 Hx2).
        apply elem_of_app in Hx1 as [Hx1|Hx1].
        * assert (x1 <= d) by (apply (Hcross x1 d Hx1); by left).
          lia.
        * apply elem_of_cons in Hx1 as [->|Hx1]; [lia|].
          apply (Hnear d x1); [by left | by apply list_elem_of_further].
      + by apply StronglySorted_app_2.
      + by apply (constant_sorted (d + 1)).
    - intros x y Hx Hy. apply Hrange in Hx, Hy. lia. }
  unfold breadth_first.
  destruct Hcase as [? ? Hqu ? Ho ? ?| ? ? ? Hqu ? Ho ? ?
                    | ? ? ? ? Hqu ? Ho ? ?| e ? ? ? ? ? Hqu ? Ho ? ?
                    | html ? ? ? ? ? ? Hqu ? Ho ? ?
                    | html links ? ? ? ? ? ? ? Hqu ? Ho ? ? ?
                    | html ? ? ? ? ? ? ? Hqu ? Ho ? ? ?];
    rewrite Ho, Hqu; try done; try apply Hsave.
  specialize (Hsave html []). unfold new_tasks in Hsave.
  simpl in Hsave. by rewrite app_nil_r in Hsave.
Qed.

Lemma init_breadth_first w : breadth_first (init_state cfg w).
Proof.
  assert (H0 : Forall (fun z => z = 0)
                 (map snd (map (fun url : str => (url, 0)) (START_URLS cfg)))).
  { rewrite map_map. apply List.Forall_forall. intros z Hz.
    by apply in_map_iff in Hz as (l & <- & _). }
  split; simpl.
  - by apply (constant_sorted 0).
  - rewrite Forall_forall in H0. intros x y Hx Hy.
    rewrite (H0 x Hx), (H0 y Hy). lia.
Qed.

(** *** A negative maximum depth *)

Definition idle (st : State World) : Prop :=
  out st = [] /\ fetched (log st) = [] /\ page_count st = 0
  /\ Forall (fun t => 0 <= snd t) (queue st).

Lemma idle_step st st' :
  MAX_DEPTH cfg < 0 ->
  idle st -> loop_step cfg st = Some st' -> idle st'.
Proof.
  intros Hneg (Hout & Hfetch & Hcount & Hqueue) Hstep.
  apply loop_step_outcome in Hstep as (u & d & q' & Hq & Hlt & Hcase).
  rewrite Hq in Hqueue. inversion Hqueue as [|? ? Hd Hq'']; subst.
  simpl in Hd. unfold idle.
  destruct Hcase as [? ? Hqu Hc Ho Hl ?| ? ? ? Hqu Hc Ho Hl ?
                    | | | | | ]; try lia;
    by rewrite Ho, Hl, Hc, Hqu.
Qed.

Lemma init_idle w : idle (init_state cfg w).
Proof.
  destruct (init_fetched_once w) as [_ _].
  split; [done|]. split; [|split; [done|]].
  - simpl. induction (START_URLS cfg); [done | by simpl].
  - simpl. apply List.Forall_forall. intros t Ht.
    by apply in_map_iff in Ht as (u & <- & _).
Qed.

End Facts.

(** X4.  [extract_links] returns only URLs the filter accepts, each the
    resolution of a non-empty [href] that is neither a fragment nor a
    script link; and it raises only when [urljoin] raises on such an
    [href]. *)
Theorem extract_links_filtered {U : Unicode} {World : Type} {W : Web World}
    (cfg : Config) (base_url html : str) :
  match extract_links cfg base_url html with
  | Some links =>
    Forall (fun link =>
              is_allowed_url cfg link = true
              /\ exists a_href,
                   In a_href (soup_hrefs html)
                   /\ urljoin base_url (strip a_href) = Some link
                   /\ strip a_href <> []
                   /\ startswith (strip a_href) (py "#") = false
                   /\ startswith (lower (strip a_href)) (py "javascript:")
                      = false)
           links
  | None =>
    exists a_href,
      In a_href (soup_hrefs html)
      /\ urljoin base_url (strip a_href) = None
      /\ strip a_href <> []
      /\ startswith (strip a_href) (py "#") = false
      /\ startswith (lower (strip a_href)) (py "javascript:") = false
  end.
Proof. apply extract_links_allowed. Qed.

(** X5.  Within a run no URL is requested twice, and every URL requested
    has passed the filter. *)
Theorem crawl_fetches_once {U : Unicode} {World : Type} {W : Web World}
    (cfg : Config) (w : World) (n : nat) :
  NoDup (fetched (log (run cfg n (init_state cfg w))))
  /\ Forall (fun u => is_allowed_url cfg u = true)
            (fetched (log (run cfg n (init_state cfg w)))).
Proof.
  split.
  - apply (run_invariant cfg (fetched_once (World := World))).
    + apply fetched_once_step.
    + apply init_fetched_once.
  - apply List.Forall_forall. intros u Hu.
    apply (run_invariant cfg (fetched_allowed cfg (World := World))
             (fetched_allowed_step cfg) n (init_state cfg w)
             (init_fetched_allowed cfg w)).
    unfold fetched in Hu. apply in_flat_map in Hu as (e & He & Hu).
    destruct e; simpl in Hu; try done. by destruct Hu as [<- | []].
Qed.

(** X6.  Every record written carries a URL the filter accepts, a
    non-empty text that [clean_lines] leaves unchanged, the digest of that
    text, and a depth from 0 to the maximum depth. *)
Theorem crawl_records_well_formed {U : Unicode} {World : Type}
    {W : Web World} (cfg : Config) (w : World) (n : nat) :
  Forall (fun r =>
            is_allowed_url cfg (url r) = true
            /\ text r <> []
            /\ clean_lines (text r) = text r
            /\ hash r = md5_hexdigest (text r)
            /\ 0 <= depth r <= MAX_DEPTH cfg)
         (out (run cfg n (init_state cfg w))).
Proof.
  apply (run_invariant cfg (well_formed cfg) (well_formed_step cfg) n
           (init_state cfg w) (init_well_formed cfg w)).
Qed.

(** X7.  Every task waiting in the queue is a seed at depth 0 or a link
    the filter accepted, at a depth from 1 to the maximum depth plus one. *)
Theorem crawl_queue_tasks {U : Unicode} {World : Type} {W : Web World}
    (cfg : Config) (w : World) (n : nat) :
  Forall (fun t =>
            (snd t = 0 /\ In (fst t) (START_URLS cfg))
            \/ (1 <= snd t <= MAX_DEPTH cfg + 1
                /\ is_allowed_url cfg (fst t) = true))
         (queue (run cfg n (init_state cfg w))).
Proof.
  apply (run_invariant cfg (well_formed cfg) (well_formed_step cfg) n
           (init_state cfg w) (init_well_formed cfg w)).
Qed.

(** X8.  The records are written breadth first: their depths never
    decrease along the output. *)
Theorem crawl_breadth_first {U : Unicode} {World : Type} {W : Web World}
    (cfg : Config) (w : World) (n : nat) :
  StronglySorted Z.le (map depth (out (run cfg n (init_state cfg w)))).
Proof.
  destruct (run_invariant cfg (breadth_first (World := World))
              (breadth_first_step cfg) n (init_state cfg w)
              (init_breadth_first cfg w)) as [Hsorted _].
  by apply StronglySorted_app_1_l in Hsorted.
Qed.

(** X9.  With no seed, or with a maximum page count of zero or less, the
    loop body never runs: [crawl] returns at once, whatever the fuel, with
    nothing fetched, nothing written and a count of 0. *)
Theorem crawl_nothing_to_do {U : Unicode} {World : Type} {W : Web World}
    (cfg : Config) (w : World) (fuel : nat) :
  START_URLS cfg = [] \/ MAX_PAGES cfg <= 0 ->
  option_map (fun st => (out st, log st, page_count st))
             (crawl cfg fuel w)
  = Some ([], map SEED (START_URLS cfg) ++ [DONE 0], 0).
Proof.
  intros H.
  assert (Hstop : loop_step cfg (init_state cfg w) = None).
  { unfold loop_step. simpl. destruct H as [-> | H]; [done|].
    destruct (START_URLS cfg); simpl; [done|].
    destruct (Z.ltb_spec 0 (MAX_PAGES cfg)); [lia | done]. }
  unfold crawl. rewrite (run_stop cfg fuel _ Hstop), Hstop. reflexivity.
Qed.

Lemma crawl_nothing_to_do_witness :
  (START_URLS {| START_URLS := [py "https://x.org/a"];
                 ALLOWED_DOMAIN := py "x.org";
                 MAX_PAGES := 0; MAX_DEPTH := 3 |} = []
   \/ MAX_PAGES {| START_URLS := [py "https://x.org/a"];
                   ALLOWED_DOMAIN := py "x.org";
                   MAX_PAGES := 0; MAX_DEPTH := 3 |} <= 0)
  /\ option_map (fun st => (out st, log st, page_count st))
       (@crawl lower_ascii unit
          (UrlLib.site_web [(py "https://x.org/a", page_200 "first page" [])])
          {| START_URLS := [py "https://x.org/a"];
             ALLOWED_DOMAIN := py "x.org";
             MAX_PAGES := 0; MAX_DEPTH := 3 |} 7 tt)
     = Some ([], [SEED (py "https://x.org/a"); DONE 0], 0).
Proof.
  assert (H : MAX_PAGES {| START_URLS := [py "https://x.org/a"];
                           ALLOWED_DOMAIN := py "x.org";
                           MAX_PAGES := 0; MAX_DEPTH := 3 |} <= 0)
    by (simpl; lia).
  split; [by right|].
  apply (@crawl_nothing_to_do lower_ascii unit _ _ tt 7 (or_intror H)).
Defined.

(** X10.  With a negative maximum depth every task is skipped before any
    request: nothing is fetched and nothing is written. *)
Theorem crawl_negative_depth {U : Unicode} {World : Type} {W : Web World}
    (cfg : Config) (w : World) (n : nat) :
  MAX_DEPTH cfg < 0 ->
  out (run cfg n (init_state cfg w)) = []
  /\ fetched (log (run cfg n (init_state cfg w))) = []
  /\ page_count (run cfg n (init_state cfg w)) = 0.
Proof.
  intros Hneg.
  destruct (run_invariant cfg (idle (World := World)) (fun st st' => idle_step cfg st st' Hneg)
              n (init_state cfg w) (init_idle cfg w)) as (? & ? & ? & _).
  done.
Qed.

Lemma crawl_negative_depth_witness :
  MAX_DEPTH {| START_URLS := [py "https://x.org/a"];
               ALLOWED_DOMAIN := py "x.org";
               MAX_PAGES := 10; MAX_DEPTH := -1 |} < 0
  /\ (out (@run lower_ascii unit
             (UrlLib.site_web [(py "https://x.org/a", page_200 "first page" [])])
             {| START_URLS := [py "https://x.org/a"];
                ALLOWED_DOMAIN := py "x.org";
                MAX_PAGES := 10; MAX_DEPTH := -1 |} 3
             (init_state {| START_URLS := [py "https://x.org/a"];
                            ALLOWED_DOMAIN := py "x.org";
                            MAX_PAGES := 10; MAX_DEPTH := -1 |} tt)) = []
      /\ fetched (log (@run lower_ascii unit
             (UrlLib.site_web [(py "https://x.org/a", page_200 "first page" [])])
             {| START_URLS := [py "https://x.org/a"];
                ALLOWED_DOMAIN := py "x.org";
                MAX_PAGES := 10; MAX_DEPTH := -1 |} 3
             (init_state {| START_URLS := [py "https://x.org/a"];
                            ALLOWED_DOMAIN := py "x.org";
                            MAX_PAGES := 10; MAX_DEPTH := -1 |} tt))) = []
      /\ page_count (@run lower_ascii unit
             (UrlLib.site_web [(py "https://x.org/a", page_200 "first page" [])])
             {| START_URLS := [py "https://x.org/a"];
                ALLOWED_DOMAIN := py "x.org";
                MAX_PAGES := 10; MAX_DEPTH := -1 |} 3
             (init_state {| START_URLS := [py "https://x.org/a"];
                            ALLOWED_DOMAIN := py "x.org";
                            MAX_PAGES := 10; MAX_DEPTH := -1 |} tt)) = 0).
Proof.
  assert (H : MAX_DEPTH {| START_URLS := [py "https://x.org/a"];
                           ALLOWED_DOMAIN := py "x.org";
                           MAX_PAGES := 10; MAX_DEPTH := -1 |} < 0)
    by (simpl; lia).
  split; [exact H|].
  apply (@crawl_negative_depth lower_ascii unit _ _ tt 3 H).
Defined.

(** X11.  When [crawl] returns, either the queue is empty or the page
    count has reached the maximum (0 if the maximum is negative). *)
Theorem crawl_stop_condition {U : Unicode} {World : Type} {W : Web World}
    (cfg : Config) (w : World) (fuel : nat) (st : State World) :
  crawl cfg fuel w = Some st ->
  queue st = [] \/ page_count st = Z.max 0 (MAX_PAGES cfg).
Proof.
  unfold crawl. intros H.
  destruct (run_invariant cfg (counted cfg) (counted_step cfg) fuel
              (init_state cfg w) (init_counted cfg w)) as [Hlen Hle].
  destruct (loop_step cfg (run cfg fuel (init_state cfg w))) eqn:E; [done|].
  destruct (raised (run cfg fuel (init_state cfg w))) eqn:Er; [done|].
  injection H as <-. simpl. unfold loop_step in E. rewrite Er in E.
  destruct (queue (run cfg fuel (init_state cfg w))) as [|[u d] q'];
    [by left|].
  destruct (Z.ltb_spec (page_count (run cfg fuel (init_state cfg w)))
              (MAX_PAGES cfg)); [done|].
  right. lia.
Qed.

Lemma crawl_stop_condition_witness :
  exists st,
    @crawl lower_ascii unit
      (UrlLib.site_web
         [ (py "https://x.org/a", page_200 "first page" [py "https://x.org/b"]);
           (py "https://x.org/b", page_200 "second page" []) ])
      {| START_URLS := [py "https://x.org/a"]; ALLOWED_DOMAIN := py "x.org";
         MAX_PAGES := 1; MAX_DEPTH := 3 |} 1 tt = Some st
    /\ queue st = [(py "https://x.org/b", 1)]
    /\ (queue st = [] \/ page_count st = Z.max 0 1).
Proof.
  eexists. split; [vm_compute; reflexivity|]. split; [reflexivity|].
  apply (@crawl_stop_condition lower_ascii unit
           (UrlLib.site_web
              [ (py "https://x.org/a",
                 page_200 "first page" [py "https://x.org/b"]);
                (py "https://x.org/b", page_200 "second page" []) ])
           {| START_URLS := [py "https://x.org/a"];
              ALLOWED_DOMAIN := py "x.org";
              MAX_PAGES := 1; MAX_DEPTH := 3 |} tt 1).
  vm_compute. reflexivity.
Defined.

End CrawlCases.

(** ** main.py: loading the data *)

Module MainLoad.

Import Main.

(** [load_staff_db()]: the content of data/staff.json when the file
    exists ([Some]), the empty directory otherwise. *)
Definition load_staff_db (file : option StaffDb) : StaffDb :=
  match file with
  | Some db => db
  | None => {| teachers := []; staff := [] |}
  end.

(** [load_knowledge()]: the trimmed content of data/school_knowledge.txt
    when the file exists, the empty string otherwise. *)
Definition load_knowledge (file : option str) : str :=
  match file with
  | Some content => strip content
  | None => []
  end.

End MainLoad.

(** ** More on the question service *)

Module AskMore.

Import Main MainLoad PyStrFacts AskFacts.

Section Facts.
Context {U : Unicode} (STAFF_DB : StaffDb) (SCHOOL_KNOWLEDGE : str).

Lemma first_return_some {A B} (body : A -> option B) l r :
  first_return body l = Some r -> exists x, In x l /\ body x = Some r.
Proof.
  induction l as [|x l IH]; simpl; [done|].
  destruct (body x) as [r'|] eqn:E.
  - intros [= <-]. exists x. split; [by left | done].
  - intros H. destruct (IH H) as (y & Hy & Hb). exists y. split; [by right | done].
Qed.

Lemma endswith_app a b suf :
  endswith b suf = true -> endswith (a ++ b) suf = true.
Proof.
  rewrite !endswith_spec. intros [c ->]. exists (a ++ c).
  by rewrite app_assoc.
Qed.

(** *** The captures of the two patterns *)

Definition grade_class (g : list N) : Prop :=
  exists grade cls,
    g = [grade; cls]
    /\ (digit 1 <= grade <= digit 3)%N /\ (digit 1 <= cls <= digit 4)%N.

Lemma star_then (a : atom) (items : list item) (P : list N -> Prop) :
  (forall s g, match_here items s = Some g -> P g) ->
  forall s g, match_here (Star a :: items) s = Some g -> P g.
Proof.
  intros Hitems. induction s as [|c s IH]; intros g; simpl.
  - apply Hitems.
  - destruct (atom_matches a c).
    + destruct ((fix star (s0 : str) : option (list N) :=
                   match s0 with
                   | [] => match_here items []
                   | c0 :: s' =>
                     if atom_matches a c0
                     then match star s' with
                          | Some g0 => Some g0
                          | None => match_here items s0
                          end
                     else match_here items s0
                   end) s) as [g'|] eqn:E.
      * intros [= <-]. by apply IH.
      * apply Hitems.
    + apply Hitems.
Qed.

Lemma class_then_ban s g :
  match_here [Group (Range (digit 1) (digit 4)); One (Lit 48152%N)] s = Some g ->
  exists cls, g = [cls] /\ (digit 1 <= cls <= digit 4)%N.
Proof.
  destruct s as [|c [|b s]]; simpl; try done.
  - by destruct (_ && _).
  - destruct ((digit 1 <=? c)%N && (c <=? digit 4)%N) eqn:E; [|done].
    destruct (b =? 48152)%N; [|done]. intros [= <-].
    apply andb_true_iff in E as [?%N.leb_le ?%N.leb_le]. eauto.
Qed.

Lemma class_then_opt_ban s g :
  match_here [Group (Range (digit 1) (digit 4)); Opt (Lit 48152%N)] s = Some g ->
  exists cls, g = [cls] /\ (digit 1 <= cls <= digit 4)%N.
Proof.
  destruct s as [|c s]; simpl; [done|].
  destruct ((digit 1 <=? c)%N && (c <=? digit 4)%N) eqn:E; [|done].
  apply andb_true_iff in E as [?%N.leb_le ?%N.leb_le].
  destruct s as [|b s]; simpl.
  - intros [= <-]. eauto.
  - destruct (b =? 48152)%N; intros [= <-]; eauto.
Qed.

Lemma match_grade_class s g :
  match_here re_grade_class s = Some g -> grade_class g.
Proof.
  unfold re_grade_class.
  destruct s as [|c0 [|c1 [|c2 s]]]; try done;
    change (match_here (Group ?a :: ?items) (?c :: ?s'))
      with (if atom_matches a c
            then option_map (cons c) (match_here items s') else None);
    destruct (atom_matches (Range (digit 1) (digit 3)) c0) eqn:E0; try done.
  - change (match_here (One ?a :: ?items) (?c :: ?s'))
      with (if atom_matches a c then match_here items s' else None).
    by destruct (atom_matches _ c1).
  - change (match_here (One ?a :: ?items) (?c :: ?s'))
      with (if atom_matches a c then match_here items s' else None).
    destruct (atom_matches _ c1); [|done].
    change (match_here (One ?a :: ?items) (?c :: ?s'))
      with (if atom_matches a c then match_here items s' else None).
    destruct (atom_matches _ c2); [|done].
    destruct (match_here _ s) as [g'|] eqn:E; [|done]. intros [= <-].
    apply (star_then Space _
             (fun g' => exists cls, g' = [cls]
                                    /\ (digit 1 <= cls <= digit 4)%N)
             class_then_ban) in E as (cls & -> & Hc).
    simpl in E0. apply andb_true_iff in E0 as [?%N.leb_le ?%N.leb_le].
    exists c0, cls. done.
Qed.

Lemma match_grade_dash_class s g :
  match_here re_grade_dash_class s = Some g -> grade_class g.
Proof.
  unfold re_grade_dash_class.
  destruct s as [|c0 [|c1 s]]; try done;
    change (match_here (Group ?a :: ?items) (?c :: ?s'))
      with (if atom_matches a c
            then option_map (cons c) (match_here items s') else None);
    destruct (atom_matches (Range (digit 1) (digit 3)) c0) eqn:E0; try done.
  change (match_here (One ?a :: ?items) (?c :: ?s'))
    with (if atom_matches a c then match_here items s' else None).
  destruct (atom_matches _ c1); [|done].
  destruct (match_here _ s) as [g'|] eqn:E; [|done]. intros [= <-].
  apply (star_then Space _
           (fun g' => exists cls, g' = [cls]
                                  /\ (digit 1 <= cls <= digit 4)%N)
           class_then_opt_ban) in E as (cls & -> & Hc).
  simpl in E0. apply andb_true_iff in E0 as [?%N.leb_le ?%N.leb_le].
  exists c0, cls. done.
Qed.

Lemma re_search_some (P : list N -> Prop) items :
  (forall s g, match_here items s = Some g -> P g) ->
  forall s g, re_search items s = Some g -> P g.
Proof.
  intros H. induction s as [|c s IH]; intros g; simpl.
  - destruct (match_here items []) eqn:E; [|done]. intros [= <-]. eauto.
  - destruct (match_here items (c :: s)) eqn:E; [intros [= <-]; eauto|].
    apply IH.
Qed.

(** *** The rules of [answer_from_staff_db], one by one *)

Definition subject_rule (q : str) : option str :=
  first_return
    (fun '(keyword, subject) =>
       if contains keyword q
          && (contains (py "교사") q || contains (py "선생") q)
       then
         let names :=
           map name (List.filter (fun t => opt_eqb (Main.subject t) subject)
                                 (teachers STAFF_DB)) in
         if nonempty_list names then
           let names_str := join (py ", ") names in
           Some (subject ++ py " 교사는 " ++ names_str
                         ++ py " 선생님입니다.")
         else None
       else None)
    subject_map.

Definition homeroom_match (q : str) : option (list N) :=
  if contains (py "담임") q then
    match re_search re_grade_class q with
    | Some g => Some g
    | None => re_search re_grade_dash_class q
    end
  else None.

Definition homeroom_rule (grade cls : N) : str :=
  match
    first_return
      (fun t =>
         if opt_eqb (homeroom t) ([grade] ++ py "-" ++ [cls])
         then Some ([grade] ++ py "학년 " ++ [cls] ++ py "반 담임은 "
                      ++ name t ++ py " 선생님입니다.")
         else None)
      (teachers STAFF_DB)
  with
  | Some answer => answer
  | None => [grade] ++ py "학년 " ++ [cls]
              ++ py "반 담임 정보는 데이터에 없습니다."
  end.

Definition dept_rule (q : str) : option str :=
  first_return
    (fun dept =>
       if contains dept q && contains (py "부장") q then
         first_return
           (fun t =>
              if existsb (str_eqb dept) (departments t)
                 && existsb (contains (py "부장")) (roles t)
              then Some (dept ++ py " 부장은 " ++ name t
                              ++ py " 선생님입니다.")
              else None)
           (teachers STAFF_DB)
       else None)
    dept_keywords.

Definition principal_rule (q : str) : option str :=
  if contains (py "교장") q then
    first_return
      (fun s =>
         if contains (py "교장") (role s)
         then Some (py "창녕옥야고등학교 교장은 " ++ staff_name s
                      ++ py "입니다.")
         else None)
      (staff STAFF_DB)
  else None.

Definition vice_principal_rule (q : str) : option str :=
  if contains (py "교감") q then
    first_return
      (fun s =>
         if contains (py "교감") (role s)
         then Some (py "창녕옥야고등학교 교감은 " ++ staff_name s
                      ++ py "입니다.")
         else None)
      (staff STAFF_DB)
  else None.

Definition later_rules (q : str) : option str :=
  match dept_rule q with
  | Some answer => Some answer
  | None =>
    match principal_rule q with
    | Some answer => Some answer
    | None => vice_principal_rule q
    end
  end.

(** The function is its rules tried in order. *)
Lemma answer_rules question :
  answer_from_staff_db STAFF_DB question
  = match subject_rule (strip question) with
    | Some answer => Some answer
    | None =>
      match homeroom_match (strip question) with
      | Some [grade; cls] => Some (homeroom_rule grade cls)
      | _ => later_rules (strip question)
      end
    end.
Proof.
  unfold answer_from_staff_db, homeroom_rule.
  destruct (subject_rule (strip question)) eqn:E; unfold subject_rule in E;
    rewrite E; [done|].
  unfold homeroom_match.
  destruct (contains (py "담임") (strip question)); [|done].
  destruct (match re_search re_grade_class (strip question) with
            | Some g => Some g
            | None => re_search re_grade_dash_class (strip question)
            end) as [[|g [|c [|x l]]]|]; try done.
  by destruct (first_return _ (teachers STAFF_DB)).
Qed.

(** *** Every directory answer is a sentence *)

Local Tactic Notation "full_stop" integer(n) :=
  do n apply endswith_app; vm_compute; reflexivity.

Lemma subject_rule_sentence q a :
  subject_rule q = Some a -> endswith a (py ".") = true.
Proof.
  unfold subject_rule. intros H.
  apply first_return_some in H as ([kw subj] & _ & Hb).
  destruct (contains kw q && _); [|done].
  destruct (nonempty_list _); [|done].
  apply (inj Some) in Hb as <-. full_stop 3.
Qed.

Lemma homeroom_rule_sentence grade cls :
  endswith (homeroom_rule grade cls) (py ".") = true.
Proof.
  unfold homeroom_rule.
  destruct (first_return _ (teachers STAFF_DB)) as [r|] eqn:E.
  - apply first_return_some in E as (t & _ & Hb).
    destruct (opt_eqb _ _); [|done].
    apply (inj Some) in Hb as <-. full_stop 5.
  - full_stop 3.
Qed.

Lemma dept_rule_sentence q a :
  dept_rule q = Some a -> endswith a (py ".") = true.
Proof.
  unfold dept_rule. intros H.
  apply first_return_some in H as (dept & _ & Hb).
  destruct (contains dept q && _); [|done].
  apply first_return_some in Hb as (t & _ & Hb).
  destruct (existsb _ _ && existsb _ _); [|done].
  apply (inj Some) in Hb as <-. full_stop 3.
Qed.

Lemma principal_rule_sentence q a :
  principal_rule q = Some a -> endswith a (py ".") = true.
Proof.
  unfold principal_rule. destruct (contains _ q); [|done]. intros H.
  apply first_return_some in H as (s & _ & Hb).
  destruct (contains _ (role s)); [|done].
  apply (inj Some) in Hb as <-. full_stop 2.
Qed.

Lemma vice_principal_rule_sentence q a :
  vice_principal_rule q = Some a -> endswith a (py ".") = true.
Proof.
  unfold vice_principal_rule. destruct (contains _ q); [|done]. intros H.
  apply first_return_some in H as (s & _ & Hb).
  destruct (contains _ (role s)); [|done].
  apply (inj Some) in Hb as <-. full_stop 2.
Qed.

Lemma later_rules_sentence q a :
  later_rules q = Some a -> endswith a (py ".") = true.
Proof.
  unfold later_rules.
  destruct (dept_rule q) eqn:E1; [intros [= <-]; by eapply dept_rule_sentence|].
  destruct (principal_rule q) eqn:E2;
    [intros [= <-]; by eapply principal_rule_sentence|].
  apply vice_principal_rule_sentence.
Qed.

Lemma answer_sentence question a :
  answer_from_staff_db STAFF_DB question = Some a ->
  endswith a (py ".") = true.
Proof.
  rewrite answer_rules.
  destruct (subject_rule _) eqn:E1;
    [intros [= <-]; by eapply subject_rule_sentence|].
  destruct (homeroom_match _) as [[|g [|c [|x l]]]|];
    try apply later_rules_sentence.
  intros [= <-]. apply homeroom_rule_sentence.
Qed.

Lemma answer_not_empty question a :
  answer_from_staff_db STAFF_DB question = Some a -> a <> [].
Proof. intros H%answer_sentence ->. done. Qed.

(** *** The model call *)

Lemma chat_returned post q a :
  call_ollama_chat SCHOOL_KNOWLEDGE post q = Returned a ->
  a <> [] /\ strip a = a.
Proof.
  unfold call_ollama_chat.
  destruct (post _ q) as [e|status text [e|content]]; [done| |].
  - by destruct (negb (status =? 200)).
  - destruct (negb (status =? 200)); [done|].
    destruct (strip (default [] content)) as [|c s] eqn:E; simpl.
    + intros [= <-]. split; [done | vm_compute; reflexivity].
    + intros [= <-]. split; [done|]. rewrite <- E. apply strip_idem.
Qed.

Lemma homeroom_match_grade_class q g :
  homeroom_match q = Some g -> grade_class g.
Proof.
  unfold homeroom_match. destruct (contains _ q); [|done].
  destruct (re_search re_grade_class q) as [g'|] eqn:E1.
  - intros [= <-]. revert E1. apply re_search_some. apply match_grade_class.
  - apply re_search_some. apply match_grade_dash_class.
Qed.

Lemma subject_rule_silent q :
  existsb (fun kw => contains kw q) (map fst subject_map)
    && (contains (py "교사") q || contains (py "선생") q) = false ->
  subject_rule q = None.
Proof.
  intros H. unfold subject_rule. apply first_return_none.
  intros [kw subj] Hin.
  destruct (contains kw q && _) eqn:E; [|done].
  apply andb_true_iff in E as [E1 E2]. rewrite E2, andb_true_r in H.
  assert (existsb (fun kw => contains kw q) (map fst subject_map) = true).
  { apply existsb_exists. exists kw. split; [|done].
    apply in_map_iff. by exists (kw, subj). }
  congruence.
Qed.

Lemma homeroom_rule_find grade cls :
  homeroom_rule grade cls
  = match List.find (fun t => opt_eqb (homeroom t)
                                ([grade] ++ py "-" ++ [cls]))
                    (teachers STAFF_DB) with
    | Some t => [grade] ++ py "학년 " ++ [cls] ++ py "반 담임은 "
                  ++ name t ++ py " 선생님입니다."
    | None => [grade] ++ py "학년 " ++ [cls]
                ++ py "반 담임 정보는 데이터에 없습니다."
    end.
Proof.
  unfold homeroom_rule.
  rewrite (first_return_find
             (fun t => opt_eqb (homeroom t) ([grade] ++ py "-" ++ [cls]))
             (fun t => [grade] ++ py "학년 " ++ [cls] ++ py "반 담임은 "
                         ++ name t ++ py " 선생님입니다.")).
  by destruct (List.find _ (teachers STAFF_DB)).
Qed.

End Facts.

(** X12.  Every answer of the staff directory is a sentence: it ends with
    a full stop, so it is never empty. *)
Theorem directory_answer_sentence (STAFF_DB : StaffDb) (question a : str) :
  answer_from_staff_db STAFF_DB question = Some a ->
  endswith a (py ".") = true /\ a <> [].
Proof.
  intros H. split; [by eapply answer_sentence | by eapply answer_not_empty].
Qed.

Definition sample_db : StaffDb := {|
  teachers :=
    [ {| name := py "Kim"; subject := Some (py "국어");
         homeroom := Some (py "1-3"); departments := [py "교무기획부"];
         roles := [py "부장"] |};
      {| name := py "Wang"; subject := Some (py "중국어");
         homeroom := None; departments := []; roles := [] |} ];
  staff := [ {| staff_name := py "Lee"; role := py "교장" |} ]
|}.

Lemma directory_answer_sentence_witness :
  answer_from_staff_db sample_db (py "교무기획부 부장")
  = Some (py "교무기획부 부장은 Kim 선생님입니다.")
  /\ endswith (py "교무기획부 부장은 Kim 선생님입니다.") (py ".") = true
  /\ py "교무기획부 부장은 Kim 선생님입니다." <> [].
Proof.
  assert (H : answer_from_staff_db sample_db (py "교무기획부 부장")
              = Some (py "교무기획부 부장은 Kim 선생님입니다."))
    by (vm_compute; reflexivity).
  split; [exact H|].
  apply (directory_answer_sentence sample_db _ _ H).
Defined.


(** X14.  What /ask answers: status 400 exactly for a question that is
    empty once trimmed, with no collaborator called; status 500 only after
    the model server was called; otherwise an answer that is not empty. *)
Theorem ask_ai_outcome {U : Unicode} (STAFF_DB : StaffDb)
    (SCHOOL_KNOWLEDGE : str) (post : str -> str -> post_result)
    (payload : Question) :
  match ask_ai STAFF_DB SCHOOL_KNOWLEDGE post payload with
  | (calls, Answer a) => strip (question payload) <> [] /\ a <> []
  | (calls, HTTPException code detail) =>
    (code = 400 /\ strip (question payload) = [] /\ calls = [])
    \/ (code = 500 /\ strip (question payload) <> []
        /\ In (Call_ollama_chat (strip (question payload))) calls)
  end.
Proof.
  unfold ask_ai. destruct (strip (question payload)) as [|c q] eqn:Eq; simpl.
  { by left. }
  destruct (answer_from_staff_db STAFF_DB (c :: q)) as [a|] eqn:Ea.
  { split; [done|]. by eapply answer_not_empty. }
  destruct (is_school_question (c :: q) && negb (nonempty SCHOOL_KNOWLEDGE)).
  { split; [done|]. vm_compute. done. }
  destruct (call_ollama_chat SCHOOL_KNOWLEDGE post (c :: q)) as [e|e|a] eqn:Ec.
  - right. split; [done|]. split; [done|]. right. right. by left.
  - right. split; [done|]. split; [done|]. right. right. by left.
  - split; [done|]. by apply chat_returned in Ec as [? _].
Qed.

(** X15.  [ask_ai] calls its collaborators in one order and each at most
    once: the directory lookup, then the school-question gate only if the
    directory had no answer, then the model server only if the gate did
    not stop the question. *)
Theorem ask_ai_calls {U : Unicode} (STAFF_DB : StaffDb)
    (SCHOOL_KNOWLEDGE : str) (post : str -> str -> post_result)
    (payload : Question) :
  let q := strip (question payload) in
  let calls := fst (ask_ai STAFF_DB SCHOOL_KNOWLEDGE post payload) in
  (q = [] /\ calls = [])
  \/ (is_Some (answer_from_staff_db STAFF_DB q)
      /\ calls = [Call_answer_from_staff_db q])
  \/ (answer_from_staff_db STAFF_DB q = None
      /\ is_school_question q = true /\ SCHOOL_KNOWLEDGE = []
      /\ calls = [Call_answer_from_staff_db q; Call_is_school_question q])
  \/ (answer_from_staff_db STAFF_DB q = None
      /\ (is_school_question q = false \/ SCHOOL_KNOWLEDGE <> [])
      /\ calls = [Call_answer_from_staff_db q; Call_is_school_question q;
                  Call_ollama_chat q]).
Proof.
  intros q calls. subst calls. unfold ask_ai. fold q.
  destruct q as [|c q'] eqn:Eq; simpl negb; cbv iota.
  { by left. }
  right. destruct (answer_from_staff_db STAFF_DB (c :: q')) as [a|] eqn:Ea.
  { left. split; [by eexists | done]. }
  right. destruct (is_school_question (c :: q')) eqn:Es; simpl.
  - destruct SCHOOL_KNOWLEDGE as [|k K] eqn:EK; simpl.
    + by left.
    + right. split; [done|]. split; [by right|].
      by destruct (call_ollama_chat _ post (c :: q')).
  - right. split; [done|]. split; [by left|].
    by destruct (call_ollama_chat _ post (c :: q')).
Qed.

(** X16.  A question that says 담임, matches one of the two grade-class
    patterns and does not both name a subject and say 교사 or 선생 is
    always answered from the directory, for a grade from 1 to 3 and a
    class from 1 to 4: with the first teacher whose homeroom is that code,
    or with the not-in-the-data sentence. *)
Theorem homeroom_answer (STAFF_DB : StaffDb) (question : str) :
  contains (py "담임") (strip question) = true ->
  existsb (fun kw => contains kw (strip question)) (map fst subject_map)
    && (contains (py "교사") (strip question)
        || contains (py "선생") (strip question)) = false ->
  re_search re_grade_class (strip question) <> None
  \/ re_search re_grade_dash_class (strip question) <> None ->
  exists grade cls,
    (digit 1 <= grade <= digit 3)%N /\ (digit 1 <= cls <= digit 4)%N
    /\ answer_from_staff_db STAFF_DB question
       = Some match List.find (fun t => opt_eqb (homeroom t)
                                           ([grade] ++ py "-" ++ [cls]))
                              (teachers STAFF_DB) with
              | Some t => [grade] ++ py "학년 " ++ [cls] ++ py "반 담임은 "
                            ++ name t ++ py " 선생님입니다."
              | None => [grade] ++ py "학년 " ++ [cls]
                          ++ py "반 담임 정보는 데이터에 없습니다."
              end.
Proof.
  intros Hhome Hsubj Hre.
  rewrite answer_rules, (subject_rule_silent STAFF_DB _ Hsubj).
  destruct (homeroom_match (strip question)) as [g|] eqn:Em.
  - destruct (homeroom_match_grade_class _ _ Em) as (grade & cls & -> & Hg & Hc).
    exists grade, cls. split; [done|]. split; [done|].
    by rewrite homeroom_rule_find.
  - unfold homeroom_match in Em. rewrite Hhome in Em.
    destruct (re_search re_grade_class (strip question)); [done|].
    destruct (re_search re_grade_dash_class (strip question)); [done|].
    by destruct Hre.
Qed.

Lemma homeroom_answer_witness :
  contains (py "담임") (strip (py " 1-3반 담임 선생님 ")) = true
  /\ exists grade cls,
       answer_from_staff_db sample_db (py " 1-3반 담임 선생님 ")
       = Some match List.find (fun t => opt_eqb (homeroom t)
                                           ([grade] ++ py "-" ++ [cls]))
                              (teachers sample_db) with
              | Some t => [grade] ++ py "학년 " ++ [cls] ++ py "반 담임은 "
                            ++ name t ++ py " 선생님입니다."
              | None => [grade] ++ py "학년 " ++ [cls]
                          ++ py "반 담임 정보는 데이터에 없습니다."
              end.
Proof.
  split; [vm_compute; reflexivity|].
  destruct (homeroom_answer sample_db (py " 1-3반 담임 선생님 "))
    as (grade & cls & _ & _ & H).
  - vm_compute; reflexivity.
  - vm_compute; reflexivity.
  - right. vm_compute. done.
  - by exists grade, cls.
Defined.

(** X17.  The subject keywords are tried in the order of [subject_map]
    and by substring: a question about the 중국어 teacher also contains
    국어, so when the directory has a 국어 teacher the answer names the
    국어 teachers. *)
Theorem chinese_question_korean_answer (STAFF_DB : StaffDb) (question : str) :
  contains (py "중국어") (strip question) = true ->
  contains (py "교사") (strip question)
    || contains (py "선생") (strip question) = true ->
  map name (List.filter (fun t => opt_eqb (subject t) (py "국어"))
                        (teachers STAFF_DB)) <> [] ->
  answer_from_staff_db STAFF_DB question
  = Some (py "국어" ++ py " 교사는 "
            ++ join (py ", ")
                 (map name (List.filter
                              (fun t => opt_eqb (subject t) (py "국어"))
                              (teachers STAFF_DB)))
            ++ py " 선생님입니다.").
Proof.
  intros Hzh Hword Hnames.
  assert (Hko : contains (py "국어") (strip question) = true).
  { apply contains_spec in Hzh as (a & b & E). apply contains_spec.
    exists (a ++ [51473%N]), b. rewrite E, <- app_assoc. by f_equal. }
  rewrite answer_rules. unfold subject_rule, subject_map.
  cbn beta iota delta [first_return]. rewrite Hko, Hword. simpl andb.
  cbv iota.
  destruct (map name _) as [|n ns]; [done|]. reflexivity.
Qed.

Lemma chinese_question_korean_answer_witness :
  contains (py "중국어") (strip (py "중국어 선생님 누구야")) = true
  /\ answer_from_staff_db sample_db (py "중국어 선생님 누구야")
     = Some (py "국어 교사는 Kim 선생님입니다.").
Proof.
  split; [vm_compute; reflexivity|].
  rewrite (chinese_question_korean_answer sample_db (py "중국어 선생님 누구야")).
  - vm_compute. reflexivity.
  - vm_compute. reflexivity.
  - vm_compute. reflexivity.
  - vm_compute. done.
Defined.

(** X18.  With data/staff.json missing the directory is empty, and the
    lookup answers nothing but homeroom questions, with the
    not-in-the-data sentence. *)
Theorem missing_directory_answer (question : str) :
  answer_from_staff_db (load_staff_db None) question = None
  \/ exists grade cls,
       (digit 1 <= grade <= digit 3)%N /\ (digit 1 <= cls <= digit 4)%N
       /\ answer_from_staff_db (load_staff_db None) question
          = Some ([grade] ++ py "학년 " ++ [cls]
                    ++ py "반 담임 정보는 데이터에 없습니다.").
Proof.
  rewrite answer_rules.
  assert (Hsubj : subject_rule (load_staff_db None) (strip question) = None).
  { apply first_return_none. intros [kw subj] _. simpl.
    by destruct (contains kw _ && _). }
  assert (Hlater : later_rules (load_staff_db None) (strip question) = None).
  { unfold later_rules, dept_rule, principal_rule, vice_principal_rule.
    rewrite first_return_none.
    - simpl. by repeat destruct (contains _ (strip question)).
    - intros dept _. simpl. by destruct (contains dept _ && _). }
  rewrite Hsubj, Hlater.
  destruct (homeroom_match (strip question)) as [g|] eqn:Em; [|by left].
  destruct (homeroom_match_grade_class _ _ Em) as (grade & cls & -> & Hg & Hc).
  right. exists grade, cls. split; [done|]. split; [done|]. reflexivity.
Qed.

End AskMore.
